(** * Admission and scheduling core of the fitness tracker

    A shallow embedding of

    - [trainer_bookings/min_heap.py]   (class [MinHeap]),
    - [fitness_sessions/queue.py]      (class [SessionJoinQueue]),
    - [fitness_sessions/views.py]      ([process_join_queue]) with the
      tables of [fitness_sessions/models.py],
    - [trainer_bookings/views.py]      ([process_booking_queue]) with the
      table of [trainer_bookings/models.py],

    followed by the properties established about them.

    Conventions.  Python integers are [Z]; a Python list is a Rocq [list]
    read and written through [getitem]/[setitem], which follow Python's
    indexing (negative indices count from the end, anything else out of
    range raises [IndexError]).  A call either returns a value or raises:
    this is the type [res].  Python's [None] as a return value is [None] of
    an [option].  [while] loops are iterated by a step function under a
    fuel bound; [OutOfFuel] records that the bound was hit. *)

From Stdlib Require Import ZArith Lia.
From stdpp Require Import base tactics option list sorting strings.

Local Open Scope Z_scope.

(** ** Outcomes of a Python call *)

Module Py.

(** The exceptions that matter here.  [EmptyError] is the name the
    specification uses for an operation on an empty container. *)
Inductive exn : Set :=
| IndexError
| IntegrityError
| DoesNotExist
| AttributeError
| EmptyError.

Inductive res (A : Type) : Type :=
| Val (a : A)
| Exc (e : exn)
| OutOfFuel.

Arguments Val {A} a.
Arguments Exc {A} e.
Arguments OutOfFuel {A}.

Definition bind {A B : Type} (m : res A) (k : A -> res B) : res B :=
  match m with
  | Val a => k a
  | Exc e => Exc e
  | OutOfFuel => OutOfFuel
  end.

(** What one iteration of a [while] loop asks for next. *)
Inductive step (S : Type) : Type :=
| Break (s : S)
| Continue (s : S).

Arguments Break {S} s.
Arguments Continue {S} s.

Definition len {A : Type} (l : list A) : Z := Z.of_nat (length l).

(** [l[i]]: a negative index is taken from the end. *)
Definition getitem {A : Type} (l : list A) (i : Z) : res A :=
  let j := if i <? 0 then i + len l else i in
  if (0 <=? j) && (j <? len l) then
    match l !! Z.to_nat j with
    | Some x => Val x
    | None => Exc IndexError
    end
  else Exc IndexError.

(** [l[i] = x] *)
Definition setitem {A : Type} (l : list A) (i : Z) (x : A) : res (list A) :=
  let j := if i <? 0 then i + len l else i in
  if (0 <=? j) && (j <? len l) then Val (<[Z.to_nat j := x]> l)
  else Exc IndexError.

(** [l.pop()]: drops the last element and returns it. *)
Definition pop {A : Type} (l : list A) : res (A * list A) :=
  match last l with
  | Some x => Val (x, removelast l)
  | None => Exc IndexError
  end.

(** [l.pop(0)] *)
Definition pop0 {A : Type} (l : list A) : res (A * list A) :=
  match l with
  | x :: l' => Val (x, l')
  | [] => Exc IndexError
  end.

End Py.

Export Py.

#[global] Instance res_ret : MRet res := fun A a => Val a.
#[global] Instance res_bind : MBind res := fun A B k m => Py.bind m k.

(** Evaluates the sequencing of [res] once its first component is known. *)
Ltac res_simpl := cbn [mbind res_bind Py.bind].

(** ** [trainer_bookings/min_heap.py] *)

Module MinHeap.
Section MinHeap.

Context {T : Type}.

(** An item is a tuple [(priority_score, booking_object)]; [item[0]] is the
    score.  Scores are timestamps, here integers: the heap only ever
    compares two scores with [<]. *)
Abbreviation item := (Z * T)%type.
Abbreviation heap := (list item).

Definition score (x : item) : Z := fst x.

Definition size (h : heap) : Z := len h.

Definition is_empty (h : heap) : bool := len h =? 0.

Definition get_parent_index (index : Z) : Z := (index - 1) / 2.

Definition get_left_child_index (index : Z) : Z := 2 * index + 1.

Definition get_right_child_index (index : Z) : Z := 2 * index + 2.

Definition has_parent (index : Z) : bool := 0 <=? get_parent_index index.

Definition has_left_child (h : heap) (index : Z) : bool :=
  get_left_child_index index <? len h.

Definition has_right_child (h : heap) (index : Z) : bool :=
  get_right_child_index index <? len h.

Definition parent (h : heap) (index : Z) : res item :=
  getitem h (get_parent_index index).

Definition left_child (h : heap) (index : Z) : res item :=
  getitem h (get_left_child_index index).

Definition right_child (h : heap) (index : Z) : res item :=
  getitem h (get_right_child_index index).

(** [heap[i1], heap[i2] = heap[i2], heap[i1]]: both reads, then the two
    writes from left to right. *)
Definition swap (h : heap) (index1 index2 : Z) : res heap :=
  a ← getitem h index2;
  b ← getitem h index1;
  h1 ← setitem h index1 a;
  setitem h1 index2 b.

Definition get_min (h : heap) : res (option item) :=
  if is_empty h then Val None
  else x ← getitem h 0; Val (Some x).

(** One evaluation of the loop condition and body of [heapify_up]. *)
Definition heapify_up_step (h : heap) (index : Z) : res (step (heap * Z)) :=
  if has_parent index then
    x ← getitem h index;
    p ← parent h index;
    if score x <? score p then
      let parent_index := get_parent_index index in
      h' ← swap h index parent_index;
      Val (Continue (h', parent_index))
    else Val (Break (h, index))
  else Val (Break (h, index)).

Fixpoint heapify_up_loop (fuel : nat) (h : heap) (index : Z) : res heap :=
  match fuel with
  | O => OutOfFuel
  | S fuel' =>
      s ← heapify_up_step h index;
      match s with
      | Break (h', _) => Val h'
      | Continue (h', index') => heapify_up_loop fuel' h' index'
      end
  end.

(** The index moves to the parent on every iteration, so the loop runs at
    most once per element (see [heapify_up_terminates]). *)
Definition heapify_up (h : heap) (index : Z) : res heap :=
  heapify_up_loop (S (length h)) h index.

Definition insert (h : heap) (x : item) : res heap :=
  let h1 := h ++ [x] in
  heapify_up h1 (len h1 - 1).

(** One evaluation of the loop condition and body of [heapify_down]. *)
Definition heapify_down_step (h : heap) (index : Z) : res (step (heap * Z)) :=
  if has_left_child h index then
    r ← (if has_right_child h index then
           rc ← right_child h index;
           lc ← left_child h index;
           Val (score rc <? score lc)
         else Val false);
    let smaller_child_index :=
      if r : bool then get_right_child_index index
      else get_left_child_index index in
    x ← getitem h index;
    c ← getitem h smaller_child_index;
    if score x <? score c then Val (Break (h, index))
    else
      h' ← swap h index smaller_child_index;
      Val (Continue (h', smaller_child_index))
  else Val (Break (h, index)).

Fixpoint heapify_down_loop (fuel : nat) (h : heap) (index : Z) : res heap :=
  match fuel with
  | O => OutOfFuel
  | S fuel' =>
      s ← heapify_down_step h index;
      match s with
      | Break (h', _) => Val h'
      | Continue (h', index') => heapify_down_loop fuel' h' index'
      end
  end.

Definition heapify_down (h : heap) (index : Z) : res heap :=
  heapify_down_loop (S (length h)) h index.

(** Returns the pair of the returned value and the heap afterwards. *)
Definition extract_min (h : heap) : res (option item * heap) :=
  if is_empty h then Val (None, h)
  else
    min_item ← getitem h 0;
    l ← getitem h (len h - 1);
    h1 ← setitem h 0 l;
    '(_, h2) ← pop h1;
    if negb (is_empty h2) then
      h3 ← heapify_down h2 0;
      Val (Some min_item, h3)
    else Val (Some min_item, h2).

Definition get_all (h : heap) : heap := h.

(** The arrays a heap can hold: what any interleaving of [insert] and
    [extract_min] calls on a new [MinHeap()] leaves in [self.heap]. *)
Inductive reachable : heap -> Prop :=
| reachable_init : reachable []
| reachable_insert h x h' :
    reachable h -> insert h x = Val h' -> reachable h'
| reachable_extract_min h r h' :
    reachable h -> extract_min h = Val (r, h') -> reachable h'.

End MinHeap.
End MinHeap.

(** ** [fitness_sessions/queue.py] *)

Module SessionJoinQueue.
Section SessionJoinQueue.

Context {T : Type}.

(** [self.items] *)
Abbreviation queue := (list T).

Definition init : queue := [].

Definition enqueue (q : queue) (x : T) : queue := q ++ [x].

Definition is_empty (q : queue) : bool := len q =? 0.

Definition size (q : queue) : Z := len q.

(** Returns the pair of the returned value and the queue afterwards. *)
Definition dequeue (q : queue) : res (option T * queue) :=
  if negb (is_empty q) then
    '(x, q') ← pop0 q;
    Val (Some x, q')
  else Val (None, q).

Definition peek (q : queue) : res (option T) :=
  if negb (is_empty q) then
    x ← getitem q 0;
    Val (Some x)
  else Val None.

End SessionJoinQueue.
End SessionJoinQueue.

(** ** What the views use of the object-relational mapper

    A table is the list of its rows in storage order.  [order_by] sorts by
    one column; the mapper adds no further column to an explicit
    [order_by], so rows with equal keys come back as the store yields them,
    which the model takes to be storage order (a stable sort). *)

Module ORM.
Section ORM.

Context {Row : Type}.

Fixpoint insert_by (key : Row -> Z) (x : Row) (l : list Row) : list Row :=
  match l with
  | [] => [x]
  | y :: l' => if key x <=? key y then x :: l else y :: insert_by key x l'
  end.

Definition order_by (key : Row -> Z) (rows : list Row) : list Row :=
  foldr (insert_by key) [] rows.

(** [objects.get(pk=i)], with [None] for [DoesNotExist]. *)
Definition get (pk : Row -> nat) (table : list Row) (i : nat) : option Row :=
  find (fun x => Nat.eqb (pk x) i) table.

(** [obj.save()] for a row read from the table: the row with the same
    primary key is overwritten; a row that is not there is inserted. *)
Definition save (pk : Row -> nat) (table : list Row) (obj : Row) : list Row :=
  if existsb (fun x => Nat.eqb (pk x) (pk obj)) table then
    map (fun x => if Nat.eqb (pk x) (pk obj) then obj else x) table
  else table ++ [obj].

End ORM.
End ORM.

(** ** [fitness_sessions/models.py] and [process_join_queue] *)

Module FitnessSessions.

(** Only the columns the admission pass reads or writes are kept;
    [joined_at] and the descriptive columns of a session are not. *)
Record Session : Set := {
  session_id : nat;
  capacity : Z
}.

Record SessionParticipant : Set := {
  participant_session : nat;
  participant_user : nat
}.

Record JoinRequestQueue : Set := {
  request_id : nat;
  request_session : nat;
  request_user : nat;
  timestamp : Z;
  processed : bool;
  success : bool
}.

Record DB : Set := {
  sessions : list Session;
  participants : list SessionParticipant;
  join_requests : list JoinRequestQueue
}.

Definition set_participants (db : DB) (ps : list SessionParticipant) : DB :=
  {| sessions := sessions db; participants := ps;
     join_requests := join_requests db |}.

Definition set_join_requests (db : DB) (rs : list JoinRequestQueue) : DB :=
  {| sessions := sessions db; participants := participants db;
     join_requests := rs |}.

(** [request.processed = p; request.success = s] *)
Definition set_outcome (r : JoinRequestQueue) (p s : bool) : JoinRequestQueue :=
  {| request_id := request_id r; request_session := request_session r;
     request_user := request_user r; timestamp := timestamp r;
     processed := p; success := s |}.

(** [Session.objects.get(id=session_id)] *)
Definition get_session (db : DB) (sid : nat) : res Session :=
  match ORM.get session_id (sessions db) sid with
  | Some s => Val s
  | None => Exc DoesNotExist
  end.

Definition is_participant_of (sid : nat) (p : SessionParticipant) : bool :=
  Nat.eqb (participant_session p) sid.

(** [session.participants.count()] *)
Definition get_current_participants_count (db : DB) (session : Session) : Z :=
  len (List.filter (is_participant_of (session_id session)) (participants db)).

Definition is_full (db : DB) (session : Session) : bool :=
  capacity session <=? get_current_participants_count db session.

Definition has_user_joined (db : DB) (session : Session) (user : nat) : bool :=
  existsb (fun p => Nat.eqb (participant_session p) (session_id session)
                    && Nat.eqb (participant_user p) user) (participants db).

(** [SessionParticipant.objects.create(session=..., user=...)]:
    [unique_together = ('session', 'user')] makes the insertion of a second
    row for the same pair fail. *)
Definition create_participant (db : DB) (session : Session) (user : nat) : res DB :=
  if has_user_joined db session user then Exc IntegrityError
  else Val (set_participants db
              (participants db ++
               [{| participant_session := session_id session;
                   participant_user := user |}])).

Definition is_pending_for (session : Session) (r : JoinRequestQueue) : bool :=
  Nat.eqb (request_session r) (session_id session) && negb (processed r).

(** [JoinRequestQueue.objects.filter(session=session, processed=False)
      .order_by('timestamp')] *)
Definition pending_requests (db : DB) (session : Session) : list JoinRequestQueue :=
  ORM.order_by timestamp (List.filter (is_pending_for session) (join_requests db)).

Definition save_request (db : DB) (r : JoinRequestQueue) : DB :=
  set_join_requests db (ORM.save request_id (join_requests db) r).

Abbreviation join_queue := (list JoinRequestQueue).

(** One evaluation of the condition and body of the [while] loop. *)
Definition process_join_step (session : Session) (db : DB) (queue : join_queue)
  : res (step (DB * join_queue)) :=
  if negb (SessionJoinQueue.is_empty queue) then
    '(cur, queue') ← SessionJoinQueue.dequeue queue;
    match cur with
    | None => Exc AttributeError
    | Some current_request =>
        let current_count := get_current_participants_count db session in
        if current_count <? capacity session then
          db1 ← create_participant db session (request_user current_request);
          Val (Continue (save_request db1 (set_outcome current_request true true),
                         queue'))
        else
          Val (Break (save_request db (set_outcome current_request true false),
                      queue'))
    end
  else Val (Break (db, queue)).

(** The loop.  The only statement of an iteration that can raise is its
    first write, so an exception leaves the database as the iteration found
    it. *)
Fixpoint process_join_loop (fuel : nat) (session : Session) (db : DB)
    (queue : join_queue) : res () * DB :=
  match fuel with
  | O => (OutOfFuel, db)
  | S fuel' =>
      match process_join_step session db queue with
      | Val (Break (db', _)) => (Val (), db')
      | Val (Continue (db', queue')) => process_join_loop fuel' session db' queue'
      | Exc e => (Exc e, db)
      | OutOfFuel => (OutOfFuel, db)
      end
  end.

(** Returns the outcome of the call and the database afterwards. *)
Definition process_join_queue (db : DB) (sid : nat) : res () * DB :=
  match get_session db sid with
  | Val session =>
      let queue :=
        foldl SessionJoinQueue.enqueue SessionJoinQueue.init
              (pending_requests db session) in
      process_join_loop (S (length queue)) session db queue
  | Exc e => (Exc e, db)
  | OutOfFuel => (OutOfFuel, db)
  end.

(** What happens to the database between and by admission passes: a pass
    for some session, any change to the request table (new join requests),
    and a participant leaving ([leave_session]). *)
Inductive db_step : DB -> DB -> Prop :=
| step_pass db sid :
    db_step db (snd (process_join_queue db sid))
| step_requests db rs :
    db_step db (set_join_requests db rs)
| step_leave db sid user :
    db_step db
      (set_participants db
         (List.filter (fun p => negb (Nat.eqb (participant_session p) sid
                                      && Nat.eqb (participant_user p) user))
                      (participants db))).

Inductive db_steps : DB -> DB -> Prop :=
| steps_refl db : db_steps db db
| steps_snoc db1 db2 db3 : db_steps db1 db2 -> db_step db2 db3 -> db_steps db1 db3.

End FitnessSessions.

(** ** [trainer_bookings/models.py] and [process_booking_queue] *)

Module TrainerBookings.

Inductive status_choice : Set :=
| pending
| confirmed
| rejected
| completed
| cancelled.

#[global] Instance status_choice_eq_dec : EqDecision status_choice.
Proof. solve_decision. Defined.

(** Dates are day numbers, times of day and instants are integers.
    [priority_score] is a stored column of its own. *)
Record TrainerBooking : Set := {
  id : nat;
  client : nat;
  trainer : nat;
  requested_date : Z;
  requested_time : Z;
  priority_score : Z;
  status : status_choice;
  created_at : Z;
  processed_at : option Z
}.

(** [booking.status = s; booking.processed_at = now] *)
Definition set_status (b : TrainerBooking) (s : status_choice) (now : Z)
  : TrainerBooking :=
  {| id := id b; client := client b; trainer := trainer b;
     requested_date := requested_date b; requested_time := requested_time b;
     priority_score := priority_score b; status := s;
     created_at := created_at b; processed_at := Some now |}.

Abbreviation table := (list TrainerBooking).

Definition is_pending_for (trainer_id : nat) (b : TrainerBooking) : bool :=
  Nat.eqb (trainer b) trainer_id && bool_decide (status b = pending).

(** [TrainerBooking.objects.filter(trainer_id=trainer_id, status='pending')
      .order_by('priority_score')] *)
Definition pending_bookings (t : table) (trainer_id : nat) : list TrainerBooking :=
  ORM.order_by priority_score (List.filter (is_pending_for trainer_id) t).

(** An entry [{'date': ..., 'time': ...}] of [confirmed_times]. *)
Abbreviation slot := (Z * Z)%type.

(** The inner [for] loop that sets [has_conflict]. *)
Definition has_conflict (booking : TrainerBooking) (confirmed_times : list slot) : bool :=
  existsb (fun confirmed_time =>
             (requested_date booking =? fst confirmed_time)
             && (requested_time booking =? snd confirmed_time))
          confirmed_times.

(** The state of the outer [for] loop. *)
Record pass_state : Type := {
  bookings : table;
  confirmed_times : list slot;
  processed_count : Z
}.

(** The body of the outer [for] loop; [clock n] is what the [n]-th call of
    [datetime.now()] in this pass returns. *)
Definition process_booking (clock : Z -> Z) (st : pass_state)
    (booking : TrainerBooking) : pass_state :=
  let now := clock (processed_count st) in
  if negb (has_conflict booking (confirmed_times st)) then
    {| bookings := ORM.save id (bookings st) (set_status booking confirmed now);
       confirmed_times :=
         confirmed_times st ++ [(requested_date booking, requested_time booking)];
       processed_count := processed_count st + 1 |}
  else
    {| bookings := ORM.save id (bookings st) (set_status booking rejected now);
       confirmed_times := confirmed_times st;
       processed_count := processed_count st + 1 |}.

(** Returns the returned count and the table afterwards. *)
Definition process_booking_queue (clock : Z -> Z) (t : table) (trainer_id : nat)
  : Z * table :=
  let pending_bookings := pending_bookings t trainer_id in
  if len pending_bookings =? 0 then (0, t)
  else
    let st :=
      foldl (process_booking clock)
            {| bookings := t; confirmed_times := []; processed_count := 0 |}
            pending_bookings in
    (processed_count st, bookings st).

(** [calculate_booking_priority]: the requested instant in seconds since
    the epoch, a date being a day number and a time the second of the day. *)
Definition calculate_booking_priority (date time : Z) : Z := date * 86400 + time.

(** [create_booking]: a new pending row under the next primary key, its
    priority set by [calculate_priority]. *)
Definition create_booking (t : table) (client_id trainer_id : nat)
    (date time : Z) (now : Z) : table :=
  t ++ [{| id := S (foldr Nat.max O (map id t));
           client := client_id; trainer := trainer_id;
           requested_date := date; requested_time := time;
           priority_score := calculate_booking_priority date time;
           status := pending; created_at := now; processed_at := None |}].

End TrainerBookings.

(** * Properties *)

(** ** Indexing *)

Section Indexing.

Context {A : Type}.
Implicit Types (l : list A) (i : Z) (x : A).

Lemma len_nonneg l : 0 <= len l.
Proof. unfold len. lia. Qed.

Lemma len_app l1 l2 : len (l1 ++ l2) = len l1 + len l2.
Proof. unfold len. rewrite length_app. lia. Qed.

Lemma len_insert l (n : nat) x : len (<[n:=x]> l) = len l.
Proof. unfold len. by rewrite length_insert. Qed.

Lemma getitem_in_range l i x :
  0 <= i -> l !! Z.to_nat i = Some x -> getitem l i = Val x.
Proof.
  intros Hi Hx. unfold getitem.
  pose proof (lookup_lt_Some _ _ _ Hx) as Hlt.
  assert ((i <? 0) = false) as -> by lia.
  assert ((0 <=? i) && (i <? len l) = true) as ->.
  { unfold len. apply andb_true_iff. split; lia. }
  by rewrite Hx.
Qed.

Lemma getitem_Val_nonneg l i x :
  0 <= i -> getitem l i = Val x -> l !! Z.to_nat i = Some x.
Proof.
  intros Hi. unfold getitem.
  assert ((i <? 0) = false) as -> by lia.
  destruct ((0 <=? i) && (i <? len l)); [|done].
  destruct (l !! Z.to_nat i); congruence.
Qed.

Lemma setitem_in_range l i x :
  0 <= i < len l -> setitem l i x = Val (<[Z.to_nat i := x]> l).
Proof.
  intros Hi. unfold setitem.
  assert ((i <? 0) = false) as -> by lia.
  assert ((0 <=? i) && (i <? len l) = true) as ->; [|done].
  apply andb_true_iff. split; lia.
Qed.

Lemma lookup_in_range l i :
  0 <= i < len l -> exists x, l !! Z.to_nat i = Some x.
Proof.
  intros Hi. apply lookup_lt_is_Some_2. unfold len in Hi. lia.
Qed.

End Indexing.

(** ** The min-heap *)

Section MinHeapFacts.

Context {T : Type}.

Import MinHeap.

Implicit Types (h : list (Z * T)) (x y : Z * T) (k c p : nat).

(** [c] is the index of a child of the node at index [p]. *)
Definition child_of (p c : nat) : Prop :=
  (c = 2 * p + 1 \/ c = 2 * p + 2)%nat.

(** parent-score <= child-score for every existing parent/child pair *)
Definition heap_ordered h : Prop :=
  forall p c x y, child_of p c -> h !! p = Some x -> h !! c = Some y ->
    score x <= score y.

(** The array after [heap[a], heap[b] = heap[b], heap[a]]. *)
Definition swapped h (a b : nat) x y : list (Z * T) := <[b := x]> (<[a := y]> h).

Lemma swap_in_range h (a b : nat) x y :
  h !! a = Some x -> h !! b = Some y ->
  swap h (Z.of_nat a) (Z.of_nat b) = Val (swapped h a b x y).
Proof.
  intros Ha Hb. unfold swap, swapped.
  pose proof (lookup_lt_Some _ _ _ Ha) as Hla.
  pose proof (lookup_lt_Some _ _ _ Hb) as Hlb.
  rewrite (getitem_in_range h (Z.of_nat b) y); [|lia|by rewrite Nat2Z.id].
  rewrite (getitem_in_range h (Z.of_nat a) x); [|lia|by rewrite Nat2Z.id].
  res_simpl. rewrite setitem_in_range; [|unfold len; lia].
  res_simpl. rewrite setitem_in_range; [|rewrite len_insert; unfold len; lia].
  by rewrite !Nat2Z.id.
Qed.

Lemma swapped_length h a b x y : length (swapped h a b x y) = length h.
Proof. unfold swapped. by rewrite !length_insert. Qed.

Lemma swapped_lookup h a b x y j :
  h !! a = Some x -> h !! b = Some y -> a <> b ->
  swapped h a b x y !! j =
    if decide (j = a) then Some y else if decide (j = b) then Some x else h !! j.
Proof.
  intros Ha Hb Hab. unfold swapped.
  pose proof (lookup_lt_Some _ _ _ Ha) as Hla.
  pose proof (lookup_lt_Some _ _ _ Hb) as Hlb.
  destruct (decide (j = a)) as [->|Hja].
  - rewrite list_lookup_insert_ne by done.
    by rewrite list_lookup_insert_eq.
  - destruct (decide (j = b)) as [->|Hjb].
    + rewrite list_lookup_insert_eq by (by rewrite length_insert). done.
    + by rewrite !list_lookup_insert_ne.
Qed.

Lemma swapped_Permutation h a b x y :
  h !! a = Some x -> h !! b = Some y -> swapped h a b x y ≡ₚ h.
Proof.
  intros Ha Hb. destruct (decide (a = b)) as [->|Hab].
  - unfold swapped. assert (x = y) as -> by congruence.
    by rewrite !list_insert_id; [| |rewrite list_insert_id].
  - symmetry. apply Permutation_inj. split; [by rewrite swapped_length|].
    exists (fun j => if decide (j = a) then b else if decide (j = b) then a else j).
    split.
    + intros i j. repeat case_decide; lia.
    + intros j. rewrite (swapped_lookup h a b x y) by done.
      repeat case_decide; subst; congruence.
Qed.

(** *** Index arithmetic *)

Lemma left_child_index_nat k :
  get_left_child_index (Z.of_nat k) = Z.of_nat (2 * k + 1).
Proof. unfold get_left_child_index. lia. Qed.

Lemma right_child_index_nat k :
  get_right_child_index (Z.of_nat k) = Z.of_nat (2 * k + 2).
Proof. unfold get_right_child_index. lia. Qed.

Lemma parent_index_nat c :
  (0 < c)%nat ->
  exists p, get_parent_index (Z.of_nat c) = Z.of_nat p /\ child_of p c.
Proof.
  intros Hc. exists ((c - 1) / 2)%nat. unfold get_parent_index, child_of.
  pose proof (Nat.div_mod_eq (c - 1) 2) as Hdm.
  pose proof (Nat.mod_upper_bound (c - 1) 2) as Hub.
  split.
  - replace (Z.of_nat c - 1) with (Z.of_nat (c - 1)) by lia.
    by rewrite (Nat2Z.inj_div (c - 1) 2).
  - lia.
Qed.

Lemma has_parent_root : has_parent 0 = false.
Proof. reflexivity. Qed.

Lemma has_parent_nat c : (0 < c)%nat -> has_parent (Z.of_nat c) = true.
Proof.
  intros Hc. destruct (parent_index_nat c Hc) as (p & Hp & _).
  unfold has_parent. rewrite Hp. lia.
Qed.

Lemma has_left_child_nat h k :
  has_left_child h (Z.of_nat k) = bool_decide (2 * k + 1 < length h)%nat.
Proof.
  unfold has_left_child, get_left_child_index, len.
  case_bool_decide; lia.
Qed.

Lemma has_right_child_nat h k :
  has_right_child h (Z.of_nat k) = bool_decide (2 * k + 2 < length h)%nat.
Proof.
  unfold has_right_child, get_right_child_index, len.
  case_bool_decide; lia.
Qed.

Lemma child_of_gt p c : child_of p c -> (p < c)%nat.
Proof. unfold child_of. lia. Qed.

Lemma child_of_parent_unique p1 p2 c : child_of p1 c -> child_of p2 c -> p1 = p2.
Proof. unfold child_of. lia. Qed.

Lemma getitem_nat h k x : h !! k = Some x -> getitem h (Z.of_nat k) = Val x.
Proof. intros Hk. apply getitem_in_range; [lia|by rewrite Nat2Z.id]. Qed.

(** *** One iteration of the sift-down loop *)

(** The child the loop body selects: the right one exactly when it exists
    and its score is strictly below the left one's. *)
Definition selected_child h k : nat :=
  match h !! (2 * k + 1)%nat, h !! (2 * k + 2)%nat with
  | Some l, Some r =>
      if score r <? score l then (2 * k + 2)%nat else (2 * k + 1)%nat
  | _, _ => (2 * k + 1)%nat
  end.

Lemma selected_child_is_child h k : child_of k (selected_child h k).
Proof.
  unfold selected_child, child_of.
  destruct (h !! (2 * k + 1)%nat), (h !! (2 * k + 2)%nat);
    try destruct (_ <? _); lia.
Qed.

Lemma selected_child_exists h k :
  (2 * k + 1 < length h)%nat -> is_Some (h !! selected_child h k).
Proof.
  intros Hl. unfold selected_child.
  destruct (lookup_lt_is_Some_2 h (2 * k + 1)%nat Hl) as [l El]. rewrite El.
  destruct (h !! (2 * k + 2)%nat) as [r|] eqn:Er; [|by rewrite El].
  destruct (score r <? score l); [by rewrite Er | by rewrite El].
Qed.

Lemma selected_child_least h k y c' y' :
  h !! selected_child h k = Some y ->
  child_of k c' -> h !! c' = Some y' -> score y <= score y'.
Proof.
  unfold selected_child, child_of. intros Hy Hc Hy'.
  destruct (h !! (2 * k + 1)%nat) as [l|] eqn:El.
  - destruct (h !! (2 * k + 2)%nat) as [r|] eqn:Er.
    + destruct (score r <? score l) eqn:Hlt;
        destruct Hc as [-> | ->]; simplify_eq; lia.
    + destruct Hc as [-> | ->]; simplify_eq. lia.
  - destruct Hc as [-> | ->]; [congruence|].
    apply lookup_lt_Some in Hy'. apply lookup_ge_None in El. lia.
Qed.

Lemma heapify_down_step_no_child h k :
  (length h <= 2 * k + 1)%nat ->
  heapify_down_step h (Z.of_nat k) = Val (Break (h, Z.of_nat k)).
Proof.
  intros Hl. unfold heapify_down_step. rewrite has_left_child_nat.
  by rewrite bool_decide_eq_false_2 by lia.
Qed.

Lemma heapify_down_step_child h k x y :
  h !! k = Some x -> h !! selected_child h k = Some y ->
  heapify_down_step h (Z.of_nat k) =
    Val (if score x <? score y then Break (h, Z.of_nat k)
         else Continue (swapped h k (selected_child h k) x y,
                        Z.of_nat (selected_child h k))).
Proof.
  intros Hx Hy. unfold heapify_down_step.
  pose proof (selected_child_is_child h k) as Hc.
  assert (2 * k + 1 < length h)%nat as Hl.
  { apply lookup_lt_Some in Hy. unfold child_of in Hc. lia. }
  destruct (lookup_lt_is_Some_2 h (2 * k + 1)%nat Hl) as [l El].
  rewrite has_left_child_nat, bool_decide_eq_true_2 by done.
  rewrite has_right_child_nat. unfold right_child, left_child.
  rewrite left_child_index_nat, right_child_index_nat.
  unfold selected_child in *. rewrite El in *.
  case_bool_decide as Hr.
  - destruct (lookup_lt_is_Some_2 h (2 * k + 2)%nat Hr) as [r Er].
    rewrite Er in *. rewrite (getitem_nat h _ r Er). res_simpl.
    rewrite (getitem_nat h _ l El). res_simpl.
    destruct (score r <? score l); res_simpl;
      rewrite (getitem_nat h _ x Hx); res_simpl; rewrite (getitem_nat h _ y Hy); res_simpl;
      destruct (score x <? score y); try done;
      by rewrite (swap_in_range h _ _ x y Hx Hy).
  - assert (h !! (2 * k + 2)%nat = None) as Er by (apply lookup_ge_None; lia).
    rewrite Er in *. res_simpl.
    rewrite (getitem_nat h _ x Hx); res_simpl. rewrite (getitem_nat h _ y Hy); res_simpl.
    destruct (score x <? score y); try done.
    by rewrite (swap_in_range h _ _ x y Hx Hy).
Qed.

(** *** Sift-down restores the order *)

(** The order holds everywhere except possibly between the node at [k] and
    its children, and the parent of [k] is below the children of [k]. *)
Definition ordered_below h k : Prop :=
  (forall p c x y, child_of p c -> p <> k ->
     h !! p = Some x -> h !! c = Some y -> score x <= score y) /\
  (forall g c x y, child_of g k -> child_of k c ->
     h !! g = Some x -> h !! c = Some y -> score x <= score y).

Lemma ordered_below_leaf h k :
  ordered_below h k -> (length h <= 2 * k + 1)%nat -> heap_ordered h.
Proof.
  intros [Hord _] Hl p c x y Hc Hx Hy.
  destruct (decide (p = k)) as [->|Hne]; [|by eapply Hord].
  apply lookup_lt_Some in Hy. unfold child_of in Hc. lia.
Qed.

Lemma ordered_below_stop h k x y :
  ordered_below h k ->
  h !! k = Some x -> h !! selected_child h k = Some y ->
  score x < score y -> heap_ordered h.
Proof.
  intros [Hord _] Hx Hy Hlt p c x' y' Hc Hx' Hy'.
  destruct (decide (p = k)) as [->|Hne]; [|by eapply Hord].
  pose proof (selected_child_least h k y c y' Hy Hc Hy').
  simplify_eq. lia.
Qed.

Lemma ordered_below_swap h k x y :
  ordered_below h k ->
  h !! k = Some x -> h !! selected_child h k = Some y ->
  score y <= score x ->
  ordered_below (swapped h k (selected_child h k) x y) (selected_child h k).
Proof.
  intros [Hord Hgr] Hx Hy Hle.
  pose proof (selected_child_is_child h k) as Hsc.
  pose proof (child_of_gt _ _ Hsc) as Hgt.
  set (s := selected_child h k) in *.
  assert (k <> s) as Hks by lia.
  split.
  - intros p c x' y' Hc Hps.
    rewrite !(swapped_lookup h k s x y) by done.
    pose proof (child_of_gt _ _ Hc) as Hpc.
    destruct (decide (p = k)) as [->|Hpk].
    + intros [= <-]. destruct (decide (c = k)) as [->|_]; [lia|].
      destruct (decide (c = s)) as [->|_]; [intros [= <-]; lia|].
      intros Hy'. by eapply (selected_child_least h k).
    + destruct (decide (p = s)) as [->|_]; [done|]. intros Hx'.
      destruct (decide (c = k)) as [->|Hck].
      * intros [= <-]. by eapply (Hgr p s).
      * destruct (decide (c = s)) as [->|_].
        { pose proof (child_of_parent_unique _ _ _ Hc Hsc). done. }
        intros Hy'. by eapply (Hord p c).
  - intros g c x' y' Hg Hc.
    rewrite !(swapped_lookup h k s x y) by done.
    pose proof (child_of_parent_unique _ _ _ Hg Hsc) as ->.
    pose proof (child_of_gt _ _ Hc) as Hsc'.
    rewrite decide_True by done. intros [= <-].
    rewrite decide_False by lia. rewrite decide_False by lia.
    intros Hy'. by eapply (Hord s c).
Qed.

Lemma heapify_down_loop_correct fuel : forall h k,
  (length h - k < fuel)%nat ->
  exists h', heapify_down_loop fuel h (Z.of_nat k) = Val h' /\
             h' ≡ₚ h /\ (ordered_below h k -> heap_ordered h').
Proof.
  induction fuel as [|fuel IH]; intros h k Hfuel; [lia|].
  cbn [heapify_down_loop].
  destruct (decide (length h <= 2 * k + 1)%nat) as [Hleaf|Hchild].
  - rewrite heapify_down_step_no_child by done. res_simpl.
    exists h. split_and!; [done..|]. intros Ho. by eapply ordered_below_leaf.
  - destruct (lookup_lt_is_Some_2 h k) as [x Hx]; [lia|].
    destruct (selected_child_exists h k) as [y Hy]; [lia|].
    rewrite (heapify_down_step_child h k x y) by done. res_simpl.
    destruct (score x <? score y) eqn:Hcmp.
    + exists h. split_and!; [done..|]. intros Ho.
      eapply ordered_below_stop; [done..|lia].
    + pose proof (child_of_gt _ _ (selected_child_is_child h k)) as Hgt.
      destruct (IH (swapped h k (selected_child h k) x y) (selected_child h k))
        as (h' & Hrun & Hperm & Hord).
      { rewrite swapped_length. lia. }
      exists h'. split_and!; [done| |].
      * rewrite Hperm. by apply swapped_Permutation.
      * intros Ho. apply Hord, ordered_below_swap; [done..|lia].
Qed.

(** *** One iteration of the sift-up loop, and the loop *)

Lemma heapify_up_step_root h :
  heapify_up_step h 0 = Val (Break (h, 0)).
Proof. reflexivity. Qed.

Lemma heapify_up_step_child h k p x y :
  child_of p k -> h !! k = Some x -> h !! p = Some y ->
  heapify_up_step h (Z.of_nat k) =
    Val (if score x <? score y
         then Continue (swapped h k p x y, Z.of_nat p)
         else Break (h, Z.of_nat k)).
Proof.
  intros Hc Hx Hy. pose proof (child_of_gt _ _ Hc) as Hgt.
  destruct (parent_index_nat k) as (p' & Hp' & Hc'); [lia|].
  pose proof (child_of_parent_unique _ _ _ Hc Hc') as <-.
  unfold heapify_up_step, parent.
  rewrite has_parent_nat by lia.
  rewrite (getitem_nat h _ x Hx). res_simpl.
  rewrite Hp', (getitem_nat h _ y Hy). res_simpl.
  destruct (score x <? score y); [|done].
  by rewrite (swap_in_range h k p x y Hx Hy).
Qed.

(** The order holds everywhere except possibly between the node at [k] and
    its parent, and the parent of [k] is below the children of [k]. *)
Definition ordered_above h k : Prop :=
  (forall p c x y, child_of p c -> c <> k ->
     h !! p = Some x -> h !! c = Some y -> score x <= score y) /\
  (forall g c x y, child_of g k -> child_of k c ->
     h !! g = Some x -> h !! c = Some y -> score x <= score y).

Lemma ordered_above_root h : ordered_above h 0 -> heap_ordered h.
Proof.
  intros [Hord _] p c x y Hc. eapply Hord; [done|].
  apply child_of_gt in Hc. lia.
Qed.

Lemma ordered_above_stop h k p x y :
  ordered_above h k -> child_of p k ->
  h !! k = Some x -> h !! p = Some y -> score y <= score x ->
  heap_ordered h.
Proof.
  intros [Hord _] Hc Hx Hy Hle p' c x' y' Hc' Hx' Hy'.
  destruct (decide (c = k)) as [->|Hne]; [|by eapply Hord].
  pose proof (child_of_parent_unique _ _ _ Hc Hc') as <-.
  simplify_eq. lia.
Qed.

Lemma ordered_above_swap h k p x y :
  ordered_above h k -> child_of p k ->
  h !! k = Some x -> h !! p = Some y -> score x < score y ->
  ordered_above (swapped h k p x y) p.
Proof.
  intros [Hord Hgr] Hpk Hx Hy Hlt.
  pose proof (child_of_gt _ _ Hpk) as Hgt.
  assert (k <> p) as Hkp by lia.
  split.
  - intros q c x' y' Hc Hcp.
    rewrite !(swapped_lookup h k p x y) by done.
    pose proof (child_of_gt _ _ Hc) as Hqc.
    destruct (decide (c = k)) as [->|Hck].
    + pose proof (child_of_parent_unique _ _ _ Hc Hpk) as ->.
      rewrite decide_False by lia. rewrite decide_True by done.
      intros [= <-] [= <-]. lia.
    + rewrite (decide_False (P := c = p)) by done.
      destruct (decide (q = k)) as [->|Hqk].
      * intros [= <-] Hy'. by eapply (Hgr p c).
      * destruct (decide (q = p)) as [->|Hqp].
        { intros [= <-] Hy'.
          pose proof (Hord p c y y' Hc Hck Hy Hy'). lia. }
        intros Hx' Hy'. by eapply (Hord q c).
  - intros g c x' y' Hg Hc.
    rewrite !(swapped_lookup h k p x y) by done.
    pose proof (child_of_gt _ _ Hg) as Hgp.
    rewrite decide_False by lia. rewrite decide_False by lia.
    intros Hx'.
    assert (score x' <= score y) as Hgy.
    { eapply (Hord g p); [done|lia|done..]. }
    destruct (decide (c = k)) as [->|Hck]; [by intros [= <-]|].
    pose proof (child_of_gt _ _ Hc) as Hpc.
    rewrite decide_False by lia. intros Hy'.
    pose proof (Hord p c y y' Hc Hck Hy Hy'). lia.
Qed.

Lemma heapify_up_loop_correct fuel : forall h k,
  (k < length h)%nat -> (k < fuel)%nat ->
  exists h', heapify_up_loop fuel h (Z.of_nat k) = Val h' /\
             h' ≡ₚ h /\ (ordered_above h k -> heap_ordered h').
Proof.
  induction fuel as [|fuel IH]; intros h k Hk Hfuel; [lia|].
  cbn [heapify_up_loop].
  destruct k as [|k'].
  - change (Z.of_nat 0) with 0. rewrite heapify_up_step_root. res_simpl.
    exists h. split_and!; [done..|]. apply ordered_above_root.
  - set (k := S k') in *.
    destruct (parent_index_nat k) as (p & _ & Hc); [lia|].
    pose proof (child_of_gt _ _ Hc) as Hgt.
    destruct (lookup_lt_is_Some_2 h k) as [x Hx]; [lia|].
    destruct (lookup_lt_is_Some_2 h p) as [y Hy]; [lia|].
    rewrite (heapify_up_step_child h k p x y) by done. res_simpl.
    destruct (score x <? score y) eqn:Hcmp.
    + destruct (IH (swapped h k p x y) p) as (h' & Hrun & Hperm & Hord).
      { rewrite swapped_length. lia. }
      { lia. }
      exists h'. split_and!; [done| |].
      * rewrite Hperm. by apply swapped_Permutation.
      * intros Ho. apply Hord. eapply ordered_above_swap; [done..|lia].
    + exists h. split_and!; [done..|]. intros Ho.
      eapply ordered_above_stop; [done..|lia].
Qed.

(** *** [insert] and [extract_min] *)

Lemma heap_ordered_nil : heap_ordered [].
Proof. intros p c x y _ Hx. by rewrite lookup_nil in Hx. Qed.

Lemma ordered_above_snoc h x :
  heap_ordered h -> ordered_above (h ++ [x]) (length h).
Proof.
  intros Ho. split.
  - intros p c x' y' Hc Hne Hx' Hy'.
    pose proof (child_of_gt _ _ Hc) as Hgt.
    pose proof (lookup_lt_Some _ _ _ Hy') as Hlt.
    rewrite length_app in Hlt. cbn in Hlt.
    rewrite lookup_app_l in Hx' by lia. rewrite lookup_app_l in Hy' by lia.
    by eapply Ho.
  - intros g c x' y' _ Hc _ Hy'.
    pose proof (child_of_gt _ _ Hc) as Hgt.
    apply lookup_lt_Some in Hy'. rewrite length_app in Hy'. cbn in Hy'. lia.
Qed.

Lemma insert_correct h x :
  exists h', insert h x = Val h' /\ h' ≡ₚ x :: h /\
             (heap_ordered h -> heap_ordered h').
Proof.
  unfold insert, heapify_up.
  replace (len (h ++ [x]) - 1) with (Z.of_nat (length h)).
  2:{ unfold len. rewrite length_app. cbn. lia. }
  destruct (heapify_up_loop_correct (S (length (h ++ [x]))) (h ++ [x]) (length h))
    as (h' & Hrun & Hperm & Hord).
  { rewrite length_app. cbn. lia. }
  { rewrite length_app. lia. }
  exists h'. split_and!; [done| |].
  - rewrite Hperm. by rewrite Permutation_app_comm.
  - intros Ho. by apply Hord, ordered_above_snoc.
Qed.

Lemma ordered_below_root h m l t :
  heap_ordered (m :: t ++ [l]) -> ordered_below (l :: t) 0.
Proof.
  intros Ho. split.
  - intros p c x y Hc Hp Hx Hy.
    pose proof (child_of_gt _ _ Hc) as Hgt.
    destruct p as [|p]; [done|]. destruct c as [|c]; [lia|].
    cbn in Hx, Hy. apply (Ho (S p) (S c)); [done|..]; cbn.
    + by apply lookup_app_l_Some.
    + by apply lookup_app_l_Some.
  - intros g c x y Hg. apply child_of_gt in Hg. lia.
Qed.

Lemma extract_min_empty : @extract_min T [] = Val (None, []).
Proof. reflexivity. Qed.

Lemma extract_min_correct h m t :
  h = m :: t ->
  exists h', extract_min h = Val (Some m, h') /\ h ≡ₚ m :: h' /\
             (heap_ordered h -> heap_ordered h').
Proof.
  intros ->. unfold extract_min.
  assert (is_empty (m :: t) = false) as ->.
  { unfold is_empty, len. apply Z.eqb_neq. cbn [length]. lia. }
  rewrite (getitem_in_range (m :: t) 0 m) by (done || lia). res_simpl.
  destruct t as [|x t0 _] using rev_ind.
  - cbn. exists []. split_and!; [done..|]. intros _. apply heap_ordered_nil.
  - rewrite (getitem_in_range (m :: t0 ++ [x]) _ x).
    2:{ unfold len. cbn [length]. lia. }
    2:{ replace (Z.to_nat (len (m :: t0 ++ [x]) - 1)) with (length (m :: t0)).
        - by rewrite (lookup_app_r (m :: t0) [x]), Nat.sub_diag.
        - unfold len. cbn. rewrite length_app. cbn. lia. }
    res_simpl. rewrite setitem_in_range.
    2:{ unfold len. cbn. lia. }
    res_simpl. change (<[Z.to_nat 0:=x]> (m :: t0 ++ [x])) with ((x :: t0) ++ [x]).
    unfold pop. rewrite last_snoc, removelast_last. res_simpl.
    assert (is_empty (x :: t0) = false) as ->.
    { unfold is_empty, len. apply Z.eqb_neq. cbn [length]. lia. }
    cbn [negb]. unfold heapify_down.
    destruct (heapify_down_loop_correct (S (length (x :: t0))) (x :: t0) 0)
      as (h' & Hrun & Hperm & Hord); [lia|].
    change (Z.of_nat 0) with 0 in Hrun. rewrite Hrun. res_simpl.
    exists h'. split_and!; [done| |].
    + rewrite Hperm. constructor. by rewrite Permutation_app_comm.
    + intros Ho. by eapply Hord, ordered_below_root.
Qed.

(** The root of an ordered heap carries the least score. *)
Lemma root_minimal h m :
  heap_ordered h -> h !! 0%nat = Some m ->
  forall x, x ∈ h -> score m <= score x.
Proof.
  intros Ho Hm x Hin. apply list_elem_of_lookup in Hin as [i Hi].
  revert x Hi. induction (lt_wf i) as [i _ IH]. intros x Hi.
  destruct i as [|i]; [simplify_eq; lia|].
  destruct (parent_index_nat (S i)) as (p & _ & Hc); [lia|].
  pose proof (child_of_gt _ _ Hc) as Hgt.
  destruct (lookup_lt_is_Some_2 h p) as [y Hy].
  { apply lookup_lt_Some in Hi. lia. }
  pose proof (IH p Hgt y Hy). pose proof (Ho p (S i) y x Hc Hy Hi). lia.
Qed.

Lemma reachable_ordered h : reachable h -> heap_ordered h.
Proof.
  induction 1 as [|h x h' _ IH Hins|h r h' _ IH Hext].
  - apply heap_ordered_nil.
  - destruct (insert_correct h x) as (h'' & Hrun & _ & Ho).
    rewrite Hrun in Hins. simplify_eq. auto.
  - destruct h as [|m t].
    + rewrite extract_min_empty in Hext. by simplify_eq.
    + destruct (extract_min_correct (m :: t) m t) as (h'' & Hrun & _ & Ho); [done|].
      rewrite Hrun in Hext. simplify_eq. auto.
Qed.

(** The order in the words of the source: the item at an index that has a
    parent does not score below [self.parent(index)]. *)
Lemma heap_ordered_parent h index x y :
  heap_ordered h ->
  has_parent index = true -> getitem h index = Val x -> parent h index = Val y ->
  score y <= score x.
Proof.
  intros Ho Hp Hx Hy. unfold has_parent, parent in *.
  assert (1 <= index) as Hi.
  { unfold get_parent_index in Hp. apply Z.leb_le in Hp.
    destruct (decide (1 <= index)); [done|].
    assert (index - 1 < 0) as Hneg by lia.
    pose proof (Z.div_lt_upper_bound (index - 1) 2 0). lia. }
  destruct (parent_index_nat (Z.to_nat index)) as (p & Hpi & Hc); [lia|].
  rewrite Z2Nat.id in Hpi by lia. rewrite Hpi in Hy.
  apply getitem_Val_nonneg in Hx; [|lia].
  apply getitem_Val_nonneg in Hy; [|lia]. rewrite Nat2Z.id in Hy.
  by eapply Ho.
Qed.

(** C5.  Whatever sequence of [insert] and [extract_min] calls produced the
    array [h], every item that has a parent scores at least as much as the
    parent; a further [insert] returns and adds its item; and [extract_min]
    on [h], when it is not empty, returns an item of [h] whose score is the
    least of all scores in [h], leaving the other items. *)
Theorem heap_validity h :
  reachable h ->
  (forall index x y,
     has_parent index = true -> getitem h index = Val x ->
     parent h index = Val y -> score y <= score x) /\
  (forall x, exists h', insert h x = Val h' /\ h' ≡ₚ x :: h /\ reachable h') /\
  (is_empty h = false ->
   exists m h',
     extract_min h = Val (Some m, h') /\ m ∈ h /\
     (forall x, x ∈ h -> score m <= score x) /\
     h ≡ₚ m :: h' /\ reachable h').
Proof.
  intros Hr. pose proof (reachable_ordered h Hr) as Ho. split_and!.
  - intros index x y. by apply heap_ordered_parent.
  - intros x. destruct (insert_correct h x) as (h' & Hrun & Hperm & _).
    exists h'. split_and!; [done..|]. by eapply reachable_insert.
  - intros Hne. destruct h as [|m t]; [done|].
    destruct (extract_min_correct (m :: t) m t) as (h' & Hrun & Hperm & _); [done|].
    exists m, h'. split_and!; [done|by left| |done|].
    + by apply root_minimal.
    + by eapply reachable_extract_min.
Qed.

(** C7, as the code has it.  One iteration of the sift-down at index [k]
    either stops, and then the array is untouched and every child of [k]
    scores strictly above the node; or it selects a child [c] of [k] that
    scores no more than any child of [k] (the right child only when it
    scores strictly below the left one), that child scores less than or
    the same as the node, the two are exchanged and the loop goes on at
    [c]. *)
Theorem heapify_down_step_spec h k x :
  h !! k = Some x ->
  exists s, heapify_down_step h (Z.of_nat k) = Val s /\
  match s with
  | Break (h', index') =>
      h' = h /\ index' = Z.of_nat k /\
      forall c y, child_of k c -> h !! c = Some y -> score x < score y
  | Continue (h', index') =>
      exists c y,
        index' = Z.of_nat c /\ child_of k c /\ h !! c = Some y /\
        score y <= score x /\
        (forall c' y', child_of k c' -> h !! c' = Some y' -> score y <= score y') /\
        (c = (2 * k + 2)%nat ->
         exists l, h !! (2 * k + 1)%nat = Some l /\ score y < score l) /\
        h' = swapped h k c x y
  end.
Proof.
  intros Hx.
  destruct (decide (length h <= 2 * k + 1)%nat) as [Hleaf|Hchild].
  - eexists. split; [by apply heapify_down_step_no_child|].
    split_and!; [done..|]. intros c y Hc Hy.
    apply lookup_lt_Some in Hy. unfold child_of in Hc. lia.
  - destruct (selected_child_exists h k) as [y Hy]; [lia|].
    eexists. split; [by apply (heapify_down_step_child h k x y)|].
    destruct (score x <? score y) eqn:Hcmp.
    + split_and!; [done..|]. intros c y' Hc Hy'.
      pose proof (selected_child_least h k y c y' Hy Hc Hy'). lia.
    + exists (selected_child h k), y.
      split_and!; [done|apply selected_child_is_child|done|lia| | |done].
      * intros c' y'. by apply selected_child_least.
      * unfold selected_child in *. intros Hc.
        destruct (h !! (2 * k + 1)%nat) as [l|] eqn:El; [|lia].
        destruct (h !! (2 * k + 2)%nat) as [r|] eqn:Er; [|lia].
        destruct (score r <? score l) eqn:Hrl; [|lia].
        exists l. split; [done|]. simplify_eq. lia.
Qed.

(** C10.  An iteration of the sift-down at an index [k >= 0] never raises;
    it either stops or goes on, with an array of the same length, at a
    child index, which is strictly larger than [k] and below the length.
    Hence the loop ends within [length h - k + 1] iterations, [heapify_down]
    and [extract_min] return on every array, and when the selected child
    scores the same as the node the iteration still exchanges them. *)
Theorem heapify_down_terminates h k :
  (exists s, heapify_down_step h (Z.of_nat k) = Val s /\
     match s with
     | Break _ => True
     | Continue (h', index') =>
         length h' = length h /\ Z.of_nat k < index' < len h /\
         (index' = get_left_child_index (Z.of_nat k) \/
          index' = get_right_child_index (Z.of_nat k))
     end) /\
  (forall fuel, (length h - k < fuel)%nat ->
     exists h', heapify_down_loop fuel h (Z.of_nat k) = Val h') /\
  (exists h', heapify_down h (Z.of_nat k) = Val h') /\
  (exists r h', extract_min h = Val (r, h')) /\
  (forall x y, h !! k = Some x -> h !! selected_child h k = Some y ->
     score y = score x ->
     heapify_down_step h (Z.of_nat k) =
       Val (Continue (swapped h k (selected_child h k) x y,
                      Z.of_nat (selected_child h k)))).
Proof.
  split_and!.
  - destruct (decide (length h <= 2 * k + 1)%nat) as [Hleaf|Hchild].
    { eexists. split; [by apply heapify_down_step_no_child|done]. }
    destruct (lookup_lt_is_Some_2 h k) as [x Hx]; [lia|].
    destruct (selected_child_exists h k) as [y Hy]; [lia|].
    eexists. split; [by apply (heapify_down_step_child h k x y)|].
    destruct (score x <? score y); [done|].
    pose proof (selected_child_is_child h k) as Hc.
    pose proof (lookup_lt_Some _ _ _ Hy) as Hlt.
    rewrite swapped_length. unfold len, get_left_child_index,
      get_right_child_index, child_of in *. lia.
  - intros fuel Hfuel.
    destruct (heapify_down_loop_correct fuel h k Hfuel) as (h' & Hrun & _).
    by exists h'.
  - unfold heapify_down.
    destruct (heapify_down_loop_correct (S (length h)) h k) as (h' & Hrun & _);
      [lia|]. by exists h'.
  - destruct h as [|m t]; [by exists None, []|].
    destruct (extract_min_correct (m :: t) m t) as (h' & Hrun & _); [done|].
    by exists (Some m), h'.
  - intros x y Hx Hy Heq. rewrite (heapify_down_step_child h k x y) by done.
    by rewrite (proj2 (Z.ltb_ge _ _)) by lia.
Qed.

End MinHeapFacts.

(** ** Empty containers *)

Section EmptyContainers.

Context {T : Type}.
Implicit Types (q : list T) (h : list (Z * T)).

Lemma queue_is_empty_nil q : SessionJoinQueue.is_empty q = true -> q = [].
Proof.
  unfold SessionJoinQueue.is_empty, len. intros Hq%Z.eqb_eq.
  destruct q; [done|]. cbn [length] in Hq. lia.
Qed.

Lemma heap_is_empty_nil h : MinHeap.is_empty h = true -> h = [].
Proof.
  unfold MinHeap.is_empty, len. intros Hh%Z.eqb_eq.
  destruct h; [done|]. cbn [length] in Hh. lia.
Qed.

(** C6, as the code has it.  On an empty queue [dequeue] and [peek], and on
    an empty heap [extract_min] and [get_min], return normally with the
    value [None]: no exception is raised. *)
Theorem empty_container_returns_None q h :
  SessionJoinQueue.is_empty q = true -> MinHeap.is_empty h = true ->
  (exists q', SessionJoinQueue.dequeue q = Val (None, q')) /\
  SessionJoinQueue.peek q = Val None /\
  (exists h', MinHeap.extract_min h = Val (None, h')) /\
  MinHeap.get_min h = Val None /\
  (forall e, SessionJoinQueue.dequeue q <> Exc e /\
             SessionJoinQueue.peek q <> Exc e /\
             MinHeap.extract_min h <> Exc e /\
             MinHeap.get_min h <> Exc e).
Proof.
  intros ->%queue_is_empty_nil ->%heap_is_empty_nil.
  split_and!; [by exists []|done|by exists []|done|].
  intros e. by split_and!.
Qed.

(** C9.  The empty branch mutates nothing: [dequeue] on an empty queue and
    [extract_min] on an empty heap return [None] with the backing list as
    it was; [peek] and [get_min], which contain no assignment at all,
    return [None]. *)
Theorem empty_container_unchanged q h :
  SessionJoinQueue.is_empty q = true -> MinHeap.is_empty h = true ->
  SessionJoinQueue.dequeue q = Val (None, q) /\
  SessionJoinQueue.peek q = Val None /\
  MinHeap.extract_min h = Val (None, h) /\
  MinHeap.get_min h = Val None.
Proof.
  unfold SessionJoinQueue.dequeue, SessionJoinQueue.peek,
    MinHeap.extract_min, MinHeap.get_min.
  by intros -> ->.
Qed.

(** First in, first out: what [enqueue] appended is what [dequeue] takes
    from the front. *)
Lemma foldl_enqueue q (l : list T) :
  foldl SessionJoinQueue.enqueue q l = q ++ l.
Proof.
  revert q. induction l as [|x l IH]; intros q; cbn.
  - by rewrite app_nil_r.
  - rewrite IH. unfold SessionJoinQueue.enqueue. by rewrite <- app_assoc.
Qed.

Lemma dequeue_cons x q :
  SessionJoinQueue.dequeue (x :: q) = Val (Some x, q).
Proof.
  unfold SessionJoinQueue.dequeue, SessionJoinQueue.is_empty, len.
  by rewrite (proj2 (Z.eqb_neq _ _)) by (cbn [length]; lia).
Qed.

Lemma queue_is_empty_cons x q : SessionJoinQueue.is_empty (x :: q) = false.
Proof.
  unfold SessionJoinQueue.is_empty, len. apply Z.eqb_neq. cbn [length]. lia.
Qed.

End EmptyContainers.

(** ** Tables *)

Section Tables.

Context {Row : Type} (pk : Row -> nat).
Implicit Types (t objs : list Row) (obj x : Row) (i : nat).

Lemma insert_by_Permutation (key : Row -> Z) x l :
  ORM.insert_by key x l ≡ₚ x :: l.
Proof.
  induction l as [|y l IH]; cbn; [done|].
  destruct (key x <=? key y); [done|].
  rewrite IH. apply Permutation_swap.
Qed.

Lemma order_by_Permutation (key : Row -> Z) l : ORM.order_by key l ≡ₚ l.
Proof.
  induction l as [|x l IH]; cbn; [done|].
  fold (ORM.order_by key l). by rewrite insert_by_Permutation, IH.
Qed.

Definition key_le (key : Row -> Z) (a b : Row) : Prop := key a <= key b.

Lemma insert_by_Sorted (key : Row -> Z) x l :
  StronglySorted (key_le key) l -> StronglySorted (key_le key) (ORM.insert_by key x l).
Proof.
  induction 1 as [|y l Hs IH Hy]; cbn.
  - repeat constructor.
  - destruct (key x <=? key y) eqn:Hcmp.
    + constructor; [by constructor|].
      constructor; [unfold key_le; lia|].
      eapply Forall_impl; [done|]. unfold key_le. intros z Hz. cbn in Hz. lia.
    + constructor; [done|].
      rewrite insert_by_Permutation. constructor; [unfold key_le; lia|done].
Qed.

Lemma order_by_Sorted (key : Row -> Z) l :
  StronglySorted (key_le key) (ORM.order_by key l).
Proof.
  induction l as [|x l IH]; cbn; [constructor|].
  by apply insert_by_Sorted.
Qed.

Lemma StronglySorted_weaken (R1 R2 : Row -> Row -> Prop) l :
  (forall a b, R1 a b -> R2 a b) -> StronglySorted R1 l -> StronglySorted R2 l.
Proof.
  intros HR. induction 1 as [|x l Hs IH Hx]; constructor; [done|].
  eapply Forall_impl; [done|]. cbn. auto.
Qed.

(** Rows with pairwise distinct keys come back in the one order that is
    ascending. *)
Lemma order_by_unique (key : Row -> Z) l rs :
  rs ≡ₚ l -> StronglySorted (fun a b => key a < key b) rs ->
  ORM.order_by key l = rs.
Proof.
  intros Hperm Hs.
  assert (forall x1 x2, x1 ∈ rs -> x2 ∈ rs -> key x1 = key x2 -> x1 = x2) as Hinj.
  { clear Hperm. induction Hs as [|y rs Hs IH Hy]; intros x1 x2 H1 H2 Hk.
    - by apply elem_of_nil in H1.
    - rewrite Forall_forall in Hy.
      apply elem_of_cons in H1 as [->|H1]; apply elem_of_cons in H2 as [->|H2];
        [done| | |by apply IH].
      + specialize (Hy _ H2). cbn in Hy. lia.
      + specialize (Hy _ H1). cbn in Hy. lia. }
  apply (StronglySorted_unique_strong (key_le key)).
  - intros x1 x2 H1 H2 Hle1 Hle2. unfold key_le in *.
    apply Hinj; [|done|lia]. by rewrite Hperm, <- (order_by_Permutation key l).
  - apply order_by_Sorted.
  - eapply StronglySorted_weaken; [|done]. unfold key_le. intros a b. cbn. lia.
  - by rewrite order_by_Permutation.
Qed.

(** *** [save] *)

Lemma get_save_eq t obj : ORM.get pk (ORM.save pk t obj) (pk obj) = Some obj.
Proof.
  unfold ORM.get, ORM.save.
  destruct (existsb _ t) eqn:Hex.
  - induction t as [|x t IH]; [done|]. cbn in *.
    destruct (Nat.eqb (pk x) (pk obj)) eqn:Hx; cbn.
    + by rewrite Nat.eqb_refl.
    + rewrite Hx. apply IH. by rewrite orb_false_l in Hex.
  - induction t as [|x t IH]; cbn in *.
    + by rewrite Nat.eqb_refl.
    + apply orb_false_iff in Hex as [-> Hex]. by apply IH.
Qed.

Lemma get_save_ne t obj i :
  i <> pk obj -> ORM.get pk (ORM.save pk t obj) i = ORM.get pk t i.
Proof.
  intros Hne. unfold ORM.get, ORM.save.
  assert (Nat.eqb (pk obj) i = false) as Hobj by (apply Nat.eqb_neq; lia).
  destruct (existsb _ t).
  - induction t as [|x t IH]; [done|]. cbn.
    destruct (Nat.eqb (pk x) (pk obj)) eqn:Hx.
    + apply Nat.eqb_eq in Hx. rewrite Hx. by rewrite !Hobj.
    + destruct (Nat.eqb (pk x) i); [done|]. apply IH.
  - induction t as [|x t IH]; cbn.
    + by rewrite Hobj.
    + destruct (Nat.eqb (pk x) i); [done|]. apply IH.
Qed.

Lemma get_foldl_save_other t objs i :
  i ∉ map pk objs ->
  ORM.get pk (foldl (ORM.save pk) t objs) i = ORM.get pk t i.
Proof.
  revert t. induction objs as [|obj objs IH]; intros t Hi; [done|].
  cbn [foldl map] in *. apply not_elem_of_cons in Hi as [Hne Hi].
  rewrite IH by done. by apply get_save_ne.
Qed.

Lemma get_foldl_save t objs obj :
  NoDup (map pk objs) -> obj ∈ objs ->
  ORM.get pk (foldl (ORM.save pk) t objs) (pk obj) = Some obj.
Proof.
  revert t. induction objs as [|o objs IH]; intros t Hnd Hin.
  - by apply elem_of_nil in Hin.
  - cbn [foldl map] in *. apply NoDup_cons in Hnd as [Ho Hnd].
    apply elem_of_cons in Hin as [->|Hin].
    + rewrite get_foldl_save_other by done. apply get_save_eq.
    + by apply IH.
Qed.

Lemma existsb_pk_false t obj x :
  existsb (fun y => Nat.eqb (pk y) (pk obj)) t = false -> x ∈ t -> pk x <> pk obj.
Proof.
  intros Hex Hx%list_elem_of_In Heq.
  assert (existsb (fun y => Nat.eqb (pk y) (pk obj)) t = true); [|congruence].
  apply existsb_exists. exists x. split; [done|]. by apply Nat.eqb_eq.
Qed.

Lemma elem_of_save t obj x :
  x ∈ ORM.save pk t obj -> x = obj \/ (x ∈ t /\ pk x <> pk obj).
Proof.
  unfold ORM.save. destruct (existsb _ t) eqn:Hex.
  - intros (y & Hy & Hin)%list_elem_of_In%in_map_iff.
    destruct (Nat.eqb (pk y) (pk obj)) eqn:Hcmp; [by left|].
    right. subst y. split; [by apply list_elem_of_In|]. by apply Nat.eqb_neq.
  - intros [Hx|Hx%list_elem_of_singleton]%elem_of_app; [|by left].
    right. split; [done|]. by eapply existsb_pk_false.
Qed.

Lemma elem_of_foldl_save t objs x :
  x ∈ foldl (ORM.save pk) t objs -> x ∈ objs \/ (x ∈ t /\ pk x ∉ map pk objs).
Proof.
  revert t. induction objs as [|obj objs IH]; intros t Hx; cbn [foldl map] in *.
  - right. split; [done|]. apply not_elem_of_nil.
  - destruct (IH _ Hx) as [Hin|[Hin Hpk]]; [left; by right|].
    apply elem_of_save in Hin as [->|[Hin Hne]]; [left; by left|].
    right. split; [done|]. by apply not_elem_of_cons.
Qed.

Lemma get_unique t x :
  NoDup (map pk t) -> x ∈ t -> ORM.get pk t (pk x) = Some x.
Proof.
  unfold ORM.get. induction t as [|y t IH]; intros Hnd Hx.
  - by apply elem_of_nil in Hx.
  - cbn [map] in Hnd. apply NoDup_cons in Hnd as [Hy Hnd]. cbn.
    apply elem_of_cons in Hx as [->|Hx]; [by rewrite Nat.eqb_refl|].
    destruct (Nat.eqb (pk y) (pk x)) eqn:Hcmp; [|by apply IH].
    apply Nat.eqb_eq in Hcmp. exfalso. apply Hy. rewrite Hcmp.
    apply list_elem_of_In, in_map, list_elem_of_In, Hx.
Qed.

Lemma NoDup_map_filter (f : Row -> bool) t :
  NoDup (map pk t) -> NoDup (map pk (List.filter f t)).
Proof.
  induction t as [|x t IH]; [done|]. cbn [map List.filter].
  intros [Hx Hnd]%NoDup_cons. destruct (f x); [|by apply IH].
  cbn [map]. apply NoDup_cons. split; [|by apply IH].
  intros (y & Hy & [Hin _]%filter_In)%list_elem_of_In%in_map_iff.
  apply Hx. rewrite <- Hy. apply list_elem_of_In, in_map, Hin.
Qed.

Lemma NoDup_map_take n t : NoDup (map pk t) -> NoDup (map pk (take n t)).
Proof.
  rewrite <- firstn_map. intros Hnd.
  eapply sublist_NoDup; [done|apply sublist_take].
Qed.

Lemma NoDup_map_lookup t i j x y :
  NoDup (map pk t) -> t !! i = Some x -> t !! j = Some y -> pk x = pk y -> i = j.
Proof.
  intros Hnd Hx Hy Heq.
  apply (NoDup_lookup (map pk t) i j (pk x) Hnd).
  - change (map pk t) with (pk <$> t). by rewrite list_lookup_fmap, Hx.
  - change (map pk t) with (pk <$> t). by rewrite list_lookup_fmap, Hy, Heq.
Qed.

Lemma StronglySorted_lookup (R : Row -> Row -> Prop) t : forall i j x y,
  StronglySorted R t -> (i < j)%nat ->
  t !! i = Some x -> t !! j = Some y -> R x y.
Proof.
  induction t as [|z t IH]; intros i j x y Hs Hij Hx Hy; [done|].
  apply StronglySorted_inv in Hs as [Hs Hz].
  destruct j as [|j]; [lia|]. cbn in Hy. destruct i as [|i].
  - cbn in Hx. simplify_eq. rewrite Forall_forall in Hz.
    apply Hz. by eapply list_elem_of_lookup_2.
  - cbn in Hx. eapply (IH i j); [done|lia|done..].
Qed.

Lemma filter_none (f : Row -> bool) t :
  (forall x, x ∈ t -> f x = false) -> List.filter f t = [].
Proof.
  induction t as [|x t IH]; intros Hf; [done|]. cbn.
  rewrite (Hf x) by by left. apply IH. intros y Hy. apply Hf. by right.
Qed.

Lemma get_Some t i x : ORM.get pk t i = Some x -> x ∈ t /\ pk x = i.
Proof.
  unfold ORM.get. intros [Hin Heq]%find_some.
  split; [by apply list_elem_of_In|by apply Nat.eqb_eq].
Qed.

End Tables.

(** ** Admission into a session *)

Section Admission.

Import FitnessSessions.

Implicit Types (db : DB) (s : Session) (r : JoinRequestQueue)
  (queue rs : list JoinRequestQueue).

Lemma get_session_id db sid s : get_session db sid = Val s -> session_id s = sid.
Proof.
  unfold get_session. destruct (ORM.get _ _ _) as [s'|] eqn:Hget; [|done].
  intros [= <-]. by apply get_Some in Hget as [_ ?].
Qed.

(** The participant row an admission of [r] creates. *)
Definition participant_for s r : SessionParticipant :=
  {| participant_session := session_id s; participant_user := request_user r |}.

Definition count_of (sid : nat) (ps : list SessionParticipant) : Z :=
  len (List.filter (is_participant_of sid) ps).

Lemma count_of_app sid ps1 ps2 :
  count_of sid (ps1 ++ ps2) = count_of sid ps1 + count_of sid ps2.
Proof. unfold count_of. by rewrite List.filter_app, len_app. Qed.

Lemma count_of_nonneg sid ps : 0 <= count_of sid ps.
Proof. apply len_nonneg. Qed.

Lemma count_of_admitted s rs :
  count_of (session_id s) (map (participant_for s) rs) = len rs.
Proof.
  unfold count_of, len. f_equal. induction rs as [|r rs IH]; [done|].
  cbn [map List.filter]. unfold is_participant_of at 1.
  cbn [participant_session participant_for]. rewrite Nat.eqb_refl.
  cbn [length]. by rewrite IH.
Qed.

Lemma has_user_joined_no_participant db s user :
  get_current_participants_count db s = 0 -> has_user_joined db s user = false.
Proof.
  unfold get_current_participants_count, has_user_joined, len.
  induction (participants db) as [|p ps IH]; [done|]. cbn [List.filter existsb].
  unfold is_participant_of at 1.
  destruct (Nat.eqb (participant_session p) (session_id s)); cbn [length andb orb];
    [lia|done].
Qed.

Lemma create_participant_fresh db s user :
  has_user_joined db s user = false ->
  create_participant db s user =
    Val (set_participants db
           (participants db ++
            [{| participant_session := session_id s; participant_user := user |}])).
Proof. unfold create_participant. by intros ->. Qed.

Lemma has_user_joined_app db s ps user :
  has_user_joined (set_participants db (participants db ++ ps)) s user =
  has_user_joined db s user
  || existsb (fun p => Nat.eqb (participant_session p) (session_id s)
                       && Nat.eqb (participant_user p) user) ps.
Proof. unfold has_user_joined. cbn. by rewrite existsb_app. Qed.

(** The loop, read off the queue it drains. *)
Fixpoint admit_all s db queue : res () * DB :=
  match queue with
  | [] => (Val (), db)
  | r :: queue' =>
      if get_current_participants_count db s <? capacity s then
        match create_participant db s (request_user r) with
        | Val db1 => admit_all s (save_request db1 (set_outcome r true true)) queue'
        | Exc e => (Exc e, db)
        | OutOfFuel => (OutOfFuel, db)
        end
      else (Val (), save_request db (set_outcome r true false))
  end.

Lemma process_join_loop_admit_all s queue : forall fuel db,
  (length queue < fuel)%nat ->
  process_join_loop fuel s db queue = admit_all s db queue.
Proof.
  induction queue as [|r queue IH]; intros [|fuel] db Hfuel; cbn in Hfuel;
    try lia; [done|].
  cbn [process_join_loop admit_all]. unfold process_join_step.
  rewrite queue_is_empty_cons, dequeue_cons. cbn [negb]. res_simpl.
  destruct (_ <? _); [|done].
  destruct (create_participant db s (request_user r)) as [db1| |]; res_simpl;
    [|done..].
  apply IH. lia.
Qed.

(** The rows an admission pass writes when [C] places are free. *)
Definition written (C : nat) queue : list JoinRequestQueue :=
  map (fun r => set_outcome r true true) (take C queue)
  ++ map (fun r => set_outcome r true false) (take 1 (drop C queue)).

Lemma admit_all_free s queue : forall db (C : nat),
  get_current_participants_count db s + Z.of_nat C = capacity s ->
  (C <= length queue)%nat ->
  NoDup (map request_user (take C queue)) ->
  (forall r, r ∈ take C queue -> has_user_joined db s (request_user r) = false) ->
  exists db',
    admit_all s db queue = (Val (), db') /\
    sessions db' = sessions db /\
    participants db' =
      participants db ++ map (participant_for s) (take C queue) /\
    join_requests db' =
      foldl (ORM.save request_id) (join_requests db) (written C queue).
Proof.
  induction queue as [|r queue IH]; intros db C Hcount HC Hnd Hfresh.
  - cbn in HC. assert (C = 0)%nat as -> by lia. exists db.
    split_and!; [done..|by rewrite app_nil_r|done].
  - cbn [admit_all]. destruct C as [|C].
    + rewrite (proj2 (Z.ltb_ge _ _)) by lia. eexists.
      split_and!; [done..|by rewrite app_nil_r|done].
    + rewrite (proj2 (Z.ltb_lt _ _)) by lia.
      rewrite create_participant_fresh by (apply Hfresh; by left).
      cbn [take map] in Hnd. apply NoDup_cons in Hnd as [Hr Hnd].
      edestruct (IH (save_request
                       (set_participants db (participants db ++ [participant_for s r]))
                       (set_outcome r true true)) C)
        as (db' & Hrun & Hs & Hp & Hj).
      * unfold get_current_participants_count in *. cbn.
        fold (count_of (session_id s) (participants db ++ [participant_for s r])).
        fold (count_of (session_id s) (participants db)) in Hcount.
        rewrite count_of_app.
        pose proof (count_of_admitted s [r]) as H1. cbn [map] in H1.
        rewrite H1. unfold len. cbn [length]. lia.
      * cbn [length] in HC. lia.
      * done.
      * intros r' Hr'. unfold save_request, has_user_joined. cbn.
        rewrite existsb_app. cbn. rewrite orb_false_r, Nat.eqb_refl. cbn.
        apply orb_false_iff. split.
        { apply Hfresh. by right. }
        apply Nat.eqb_neq. intros Heq. apply Hr. rewrite Heq.
        apply list_elem_of_In, in_map, list_elem_of_In, Hr'.
      * exists db'. split_and!; [done|done| |done].
        rewrite Hp. cbn. by rewrite <- app_assoc.
Qed.

Lemma written_ids C queue :
  map request_id (written C queue) = map request_id (take (S C) queue).
Proof.
  unfold written. rewrite <- (Nat.add_1_r C), <- take_take_drop.
  rewrite !map_app, !map_map. done.
Qed.

Lemma get_written t C rs i r :
  NoDup (map request_id rs) -> rs !! i = Some r ->
  ORM.get request_id (foldl (ORM.save request_id) t (written C rs)) (request_id r) =
    if decide (i < C)%nat then Some (set_outcome r true true)
    else if decide (i = C) then Some (set_outcome r true false)
    else ORM.get request_id t (request_id r).
Proof.
  intros Hnd Hr.
  assert (NoDup (map request_id (written C rs))) as Hnd'.
  { rewrite written_ids. by apply NoDup_map_take. }
  destruct (decide (i < C)%nat) as [Hlt|Hge].
  - apply (get_foldl_save request_id t _ (set_outcome r true true) Hnd').
    unfold written. apply elem_of_app. left.
    apply list_elem_of_In, (in_map (fun r => set_outcome r true true)),
      list_elem_of_In, elem_of_take. eauto.
  - destruct (decide (i = C)) as [->|Hne].
    + apply (get_foldl_save request_id t _ (set_outcome r true false) Hnd').
      unfold written. apply elem_of_app. right.
      apply list_elem_of_In, (in_map (fun r => set_outcome r true false)),
        list_elem_of_In, elem_of_take.
      exists 0%nat. split; [|lia]. by rewrite lookup_drop, Nat.add_0_r.
    + apply get_foldl_save_other. rewrite written_ids.
      intros (r' & Hid & (j & Hr' & Hj)%list_elem_of_In%elem_of_take)
        %list_elem_of_In%in_map_iff.
      pose proof (NoDup_map_lookup request_id rs i j r r' Hnd Hr Hr'). lia.
Qed.

(** C1, as the code has it.  A session of capacity [C] without
    participants, whose pending requests [rs] (listed by strictly
    increasing arrival timestamp) number at least [C], the first [C] of
    them from pairwise distinct requesters: one admission pass returns
    normally, creates a participant for each of the first [C] requests in
    arrival order and for no other, marks those requests processed and
    successful, marks request [C+1] processed without success, and leaves
    every later request as it was. *)
Theorem admission_fairness db sid s (C : nat) rs :
  NoDup (map request_id (join_requests db)) ->
  get_session db sid = Val s ->
  capacity s = Z.of_nat C ->
  rs ≡ₚ List.filter (is_pending_for s) (join_requests db) ->
  StronglySorted (fun a b => timestamp a < timestamp b) rs ->
  get_current_participants_count db s = 0 ->
  (C <= length rs)%nat ->
  NoDup (map request_user (take C rs)) ->
  exists db',
    process_join_queue db sid = (Val (), db') /\
    participants db' = participants db ++ map (participant_for s) (take C rs) /\
    get_current_participants_count db' s = Z.of_nat C /\
    (forall (i : nat) r, rs !! i = Some r ->
       processed r = false /\
       ORM.get request_id (join_requests db') (request_id r) =
         Some (if decide (i < C)%nat then set_outcome r true true
               else if decide (i = C) then set_outcome r true false
               else r)) /\
    (forall n, n ∉ map request_id rs ->
       ORM.get request_id (join_requests db') n =
       ORM.get request_id (join_requests db) n).
Proof.
  intros Hpk Hget Hcap Hperm Hsorted Hcount HC Husers.
  assert (pending_requests db s = rs) as Hpending.
  { unfold pending_requests. by apply order_by_unique. }
  assert (NoDup (map request_id rs)) as Hids.
  { rewrite Hperm. by apply NoDup_map_filter. }
  destruct (admit_all_free s rs db C) as (db' & Hrun & _ & Hp & Hj);
    [lia|done|done| |].
  { intros r _. by apply has_user_joined_no_participant. }
  exists db'. split_and!.
  - unfold process_join_queue. rewrite Hget, Hpending.
    unfold SessionJoinQueue.init. rewrite foldl_enqueue, app_nil_l.
    rewrite process_join_loop_admit_all by lia. done.
  - done.
  - unfold get_current_participants_count in *. rewrite Hp.
    fold (count_of (session_id s) (participants db)) in Hcount.
    fold (count_of (session_id s)
            (participants db ++ map (participant_for s) (take C rs))).
    rewrite count_of_app, count_of_admitted, Hcount. unfold len.
    rewrite length_take. lia.
  - intros i r Hr.
    assert (r ∈ join_requests db /\ processed r = false) as [Hin Hproc].
    { assert (r ∈ List.filter (is_pending_for s) (join_requests db)) as Hr'.
      { rewrite <- Hperm. by eapply list_elem_of_lookup_2. }
      apply list_elem_of_In, filter_In in Hr' as [Hin Hpend].
      split; [by apply list_elem_of_In|].
      unfold is_pending_for in Hpend. apply andb_true_iff in Hpend as [_ Hpend].
      by apply negb_true_iff. }
    split; [done|]. rewrite Hj, (get_written _ C rs i r Hids Hr).
    repeat case_decide; try done. by apply get_unique.
  - intros n Hn. rewrite Hj. apply get_foldl_save_other.
    rewrite written_ids, <- firstn_map. intros Hin. apply Hn.
    by eapply subseteq_take.
Qed.

(** *** The capacity bound *)

Lemma count_create_participant db s2 user db1 s :
  (session_id s2 = session_id s -> s2 = s) ->
  get_current_participants_count db s2 < capacity s2 ->
  get_current_participants_count db s <= capacity s ->
  create_participant db s2 user = Val db1 ->
  sessions db1 = sessions db /\
  get_current_participants_count db1 s <= capacity s.
Proof.
  intros Hsame Hfree Hbound. unfold create_participant.
  destruct (has_user_joined db s2 user); [done|]. intros [= <-].
  split; [done|]. unfold get_current_participants_count in *. cbn.
  rewrite List.filter_app, len_app. cbn [List.filter].
  unfold is_participant_of at 2. cbn [participant_session].
  destruct (Nat.eqb (session_id s2) (session_id s)) eqn:Hcmp.
  - apply Nat.eqb_eq, Hsame in Hcmp. subst s2. unfold len in *. cbn [length]. lia.
  - unfold len in *. cbn [length]. lia.
Qed.

Lemma process_join_loop_bound fuel : forall s2 db queue s,
  (session_id s2 = session_id s -> s2 = s) ->
  get_current_participants_count db s <= capacity s ->
  sessions (process_join_loop fuel s2 db queue).2 = sessions db /\
  get_current_participants_count (process_join_loop fuel s2 db queue).2 s
    <= capacity s.
Proof.
  induction fuel as [|fuel IH]; intros s2 db queue s Hsame Hbound; [done|].
  cbn [process_join_loop]. unfold process_join_step.
  destruct queue as [|r queue]; [done|].
  rewrite queue_is_empty_cons, dequeue_cons. cbn [negb]. res_simpl.
  destruct (_ <? _) eqn:Hfree; [|done].
  destruct (create_participant db s2 (request_user r)) as [db1| |] eqn:Hcreate;
    res_simpl; [|done..].
  apply Z.ltb_lt in Hfree.
  destruct (count_create_participant db s2 _ db1 s Hsame Hfree Hbound Hcreate)
    as [Hs Hb].
  destruct (IH s2 (save_request db1 (set_outcome r true true)) queue s Hsame)
    as [Hs' Hb']; [done|].
  split; [by rewrite Hs'|done].
Qed.

Lemma db_step_bound db db' sid s :
  get_session db sid = Val s ->
  get_current_participants_count db s <= capacity s ->
  db_step db db' ->
  get_session db' sid = Val s /\
  get_current_participants_count db' s <= capacity s.
Proof.
  intros Hget Hbound Hstep.
  destruct Hstep as [db sid2|db rs|db sid2 user].
  - unfold process_join_queue.
    destruct (get_session db sid2) as [s2| |] eqn:Hget2; [|done..].
    destruct (process_join_loop_bound
                (S (length (foldl SessionJoinQueue.enqueue SessionJoinQueue.init
                              (pending_requests db s2))))
                s2 db
                (foldl SessionJoinQueue.enqueue SessionJoinQueue.init
                   (pending_requests db s2)) s) as [Hs Hb]; [|done|].
    + intros Hid. pose proof (get_session_id _ _ _ Hget) as H1.
      pose proof (get_session_id _ _ _ Hget2) as H2.
      assert (sid2 = sid) as -> by congruence. congruence.
    + split; [|done]. unfold get_session in *. by rewrite Hs.
  - done.
  - split; [done|]. unfold get_current_participants_count in *. cbn.
    etrans; [|exact Hbound]. unfold len. apply inj_le.
    generalize (participants db). intros ps.
    induction ps as [|p ps IH]; [done|]. cbn [List.filter].
    destruct (negb _); cbn [List.filter];
      destruct (is_participant_of (session_id s) p); cbn [length]; lia.
Qed.

(** C3.  A session whose participants number at most its capacity keeps
    that bound through every sequence of admission passes (for this or any
    other session), whatever join requests are filed and whoever leaves in
    between. *)
Theorem capacity_invariant db db' sid s :
  get_session db sid = Val s ->
  get_current_participants_count db s <= capacity s ->
  db_steps db db' ->
  get_session db' sid = Val s /\
  get_current_participants_count db' s <= capacity s.
Proof.
  intros Hget Hbound Hsteps.
  induction Hsteps as [db|db1 db2 db3 _ IH Hstep]; [done|].
  destruct (IH Hget Hbound) as [Hget2 Hbound2].
  by eapply db_step_bound.
Qed.

End Admission.

(** *** Three arrivals for two places *)

Definition example_session : FitnessSessions.Session :=
  {| FitnessSessions.session_id := 1; FitnessSessions.capacity := 2 |}.

Definition example_request (n user : nat) (t : Z) : FitnessSessions.JoinRequestQueue :=
  {| FitnessSessions.request_id := n; FitnessSessions.request_session := 1;
     FitnessSessions.request_user := user; FitnessSessions.timestamp := t;
     FitnessSessions.processed := false; FitnessSessions.success := false |}.

(** Capacity 2, arrivals A (t=1), B (t=2), C (t=3). *)
Definition example_db : FitnessSessions.DB :=
  {| FitnessSessions.sessions := [example_session];
     FitnessSessions.participants := [];
     FitnessSessions.join_requests :=
       [example_request 1 10 1; example_request 2 11 2; example_request 3 12 3] |}.

(** Capacity 2, two pending requests of the same user. *)
Definition double_request_db : FitnessSessions.DB :=
  {| FitnessSessions.sessions := [example_session];
     FitnessSessions.participants := [];
     FitnessSessions.join_requests :=
       [example_request 1 10 1; example_request 2 10 2] |}.

Example admission_example :
  FitnessSessions.process_join_queue example_db 1 =
    (Val (),
     {| FitnessSessions.sessions := [example_session];
        FitnessSessions.participants :=
          [ {| FitnessSessions.participant_session := 1;
               FitnessSessions.participant_user := 10 |};
            {| FitnessSessions.participant_session := 1;
               FitnessSessions.participant_user := 11 |} ];
        FitnessSessions.join_requests :=
          [ FitnessSessions.set_outcome (example_request 1 10 1) true true;
            FitnessSessions.set_outcome (example_request 2 11 2) true true;
            FitnessSessions.set_outcome (example_request 3 12 3) true false ] |}).
Proof. reflexivity. Qed.

(** C1 as stated fails: with capacity 2 and two pending requests, the
    second from the requester of the first, the pass admits the first and
    then raises on the second, which stays unprocessed and gets no
    participant row. *)
Lemma admission_duplicate_requester :
  FitnessSessions.process_join_queue double_request_db 1 =
    (Exc IntegrityError,
     {| FitnessSessions.sessions := [example_session];
        FitnessSessions.participants :=
          [ {| FitnessSessions.participant_session := 1;
               FitnessSessions.participant_user := 10 |} ];
        FitnessSessions.join_requests :=
          [ FitnessSessions.set_outcome (example_request 1 10 1) true true;
            example_request 2 10 2 ] |}).
Proof. reflexivity. Qed.

(** ** Scheduling a trainer's bookings *)

Section Scheduling.

Import TrainerBookings.

Variable clock : Z -> Z.

Implicit Types (t : list TrainerBooking) (b : TrainerBooking)
  (seen rest pend : list TrainerBooking).

(** Two bookings ask for the same date and time. *)
Definition same_slot b b' : bool :=
  (requested_date b =? requested_date b') && (requested_time b =? requested_time b').

Lemma same_slot_sym b b' : same_slot b b' = same_slot b' b.
Proof. unfold same_slot. by rewrite (Z.eqb_sym (requested_date b)), (Z.eqb_sym (requested_time b)). Qed.

Lemma same_slot_trans b1 b2 b3 :
  same_slot b1 b2 = true -> same_slot b2 b3 = true -> same_slot b1 b3 = true.
Proof.
  unfold same_slot. rewrite !andb_true_iff, !Z.eqb_eq. intros [-> ->] [-> ->]. done.
Qed.

(** What the pass decides for [b] when the bookings [seen] came before it. *)
Definition decision seen b : status_choice :=
  if existsb (same_slot b) seen then rejected else confirmed.

(** The rows the pass saves for the bookings [rest], when [seen] came
    before them. *)
Fixpoint decided seen rest : list TrainerBooking :=
  match rest with
  | [] => []
  | b :: rest' =>
      set_status b (decision seen b) (clock (len seen)) :: decided (seen ++ [b]) rest'
  end.

Lemma decided_ids rest : forall seen, map id (decided seen rest) = map id rest.
Proof. induction rest as [|b rest IH]; intros seen; cbn; [done|]. by rewrite IH. Qed.

Lemma decided_lookup rest : forall seen (i : nat) b,
  rest !! i = Some b ->
  decided seen rest !! i =
    Some (set_status b (decision (seen ++ take i rest) b)
            (clock (len seen + Z.of_nat i))).
Proof.
  induction rest as [|b0 rest IH]; intros seen i b Hb; [done|].
  destruct i as [|i]; cbn in Hb.
  - simplify_eq. cbn. by rewrite app_nil_r, Z.add_0_r.
  - cbn [decided]. cbn [lookup list_lookup]. rewrite (IH _ _ _ Hb).
    cbn [take]. rewrite <- app_assoc. cbn [app]. do 3 f_equal.
    rewrite len_app. unfold len. cbn [length]. lia.
Qed.

Lemma elem_of_decided rest : forall seen x,
  x ∈ decided seen rest -> status x = confirmed \/ status x = rejected.
Proof.
  induction rest as [|b rest IH]; intros seen x Hx; cbn in Hx.
  - by apply elem_of_nil in Hx.
  - apply elem_of_cons in Hx as [->|Hx]; [|by eapply IH].
    cbn. unfold decision. destruct (existsb _ _); auto.
Qed.

(** The state of the loop after the bookings [seen]: they are counted, and
    a booking conflicts with [confirmed_times] exactly when one of [seen]
    asked for its slot. *)
Definition pass_inv seen (st : pass_state) : Prop :=
  processed_count st = len seen /\
  forall b, has_conflict b (confirmed_times st) = existsb (same_slot b) seen.

Lemma has_conflict_snoc b cts b' :
  has_conflict b (cts ++ [(requested_date b', requested_time b')]) =
  has_conflict b cts || same_slot b b'.
Proof. unfold has_conflict. rewrite existsb_app. cbn. by rewrite orb_false_r. Qed.

Lemma process_booking_inv seen st b :
  pass_inv seen st ->
  pass_inv (seen ++ [b]) (process_booking clock st b) /\
  bookings (process_booking clock st b) =
    ORM.save id (bookings st) (set_status b (decision seen b) (clock (len seen))).
Proof.
  intros [Hcount Hconf]. unfold process_booking, decision.
  rewrite Hconf, Hcount.
  destruct (existsb (same_slot b) seen) eqn:Hex; cbn [negb];
    (split; [split|done]); cbn [bookings confirmed_times processed_count].
  - rewrite len_app. unfold len. cbn [length]. lia.
  - intros b'. rewrite existsb_app, Hconf. cbn [existsb].
    rewrite orb_false_r. destruct (same_slot b' b) eqn:Hs; [|by rewrite orb_false_r].
    rewrite orb_true_r. apply existsb_exists in Hex as (d & Hd & Hbd).
    apply existsb_exists. exists d. split; [done|]. by eapply same_slot_trans.
  - rewrite len_app. unfold len. cbn [length]. lia.
  - intros b'. by rewrite has_conflict_snoc, existsb_app, Hconf; cbn;
      rewrite orb_false_r.
Qed.

Lemma process_bookings_fold rest : forall seen st,
  pass_inv seen st ->
  processed_count (foldl (process_booking clock) st rest) = len (seen ++ rest) /\
  bookings (foldl (process_booking clock) st rest) =
    foldl (ORM.save id) (bookings st) (decided seen rest).
Proof.
  induction rest as [|b rest IH]; intros seen st Hinv.
  - cbn. rewrite app_nil_r. by destruct Hinv.
  - cbn [foldl decided].
    destruct (process_booking_inv seen st b Hinv) as [Hinv' Hb].
    destruct (IH _ _ Hinv') as [Hc Ht]. rewrite <- app_assoc in Hc.
    split; [done|]. by rewrite Ht, Hb.
Qed.

Lemma process_booking_queue_eq t trainer_id :
  process_booking_queue clock t trainer_id =
    (len (pending_bookings t trainer_id),
     foldl (ORM.save id) t (decided [] (pending_bookings t trainer_id))).
Proof.
  unfold process_booking_queue.
  destruct (pending_bookings t trainer_id) as [|b pend] eqn:Hpend; [done|].
  rewrite (proj2 (Z.eqb_neq _ _)) by (unfold len; cbn [length]; lia).
  destruct (process_bookings_fold (b :: pend) []
              {| bookings := t; confirmed_times := []; processed_count := 0 |})
    as [Hc Ht]; [done|].
  by rewrite Hc, Ht.
Qed.

(** The status of the row of [b] in the table [t']. *)
Definition final_status (t' : list TrainerBooking) b : option status_choice :=
  status <$> ORM.get id t' (id b).

Lemma pending_bookings_elem t trainer_id b :
  b ∈ pending_bookings t trainer_id <->
  b ∈ t /\ trainer b = trainer_id /\ status b = pending.
Proof.
  unfold pending_bookings. rewrite order_by_Permutation.
  rewrite list_elem_of_In, filter_In, <- list_elem_of_In.
  unfold is_pending_for. rewrite andb_true_iff, Nat.eqb_eq, bool_decide_eq_true.
  done.
Qed.

Lemma pending_bookings_ids t trainer_id :
  NoDup (map id t) -> NoDup (map id (pending_bookings t trainer_id)).
Proof.
  intros Hnd. unfold pending_bookings. rewrite order_by_Permutation.
  by apply NoDup_map_filter.
Qed.

Lemma pending_bookings_sorted t trainer_id :
  StronglySorted (key_le priority_score) (pending_bookings t trainer_id).
Proof. apply order_by_Sorted. Qed.

Lemma get_decided t pend (i : nat) b :
  NoDup (map id pend) -> pend !! i = Some b ->
  ORM.get id (foldl (ORM.save id) t (decided [] pend)) (id b) =
    Some (set_status b (decision (take i pend) b) (clock (Z.of_nat i))).
Proof.
  intros Hnd Hb. pose proof (decided_lookup pend [] i b Hb) as Hobj.
  rewrite app_nil_l in Hobj. change (len []) with 0 in Hobj.
  rewrite Z.add_0_l in Hobj.
  apply (get_foldl_save id t (decided [] pend)
           (set_status b (decision (take i pend) b) (clock (Z.of_nat i)))).
  - by rewrite decided_ids.
  - by eapply list_elem_of_lookup_2.
Qed.

Lemma first_same_slot l b :
  existsb (same_slot b) l = true ->
  exists (j : nat) b0, l !! j = Some b0 /\ same_slot b b0 = true /\
                       existsb (same_slot b) (take j l) = false.
Proof.
  induction l as [|x l IH]; [done|]. cbn [existsb].
  destruct (same_slot b x) eqn:Hx.
  - intros _. by exists 0%nat, x.
  - cbn [orb]. intros (j & b0 & Hj & Hs & Hnone)%IH.
    exists (S j), b0. split_and!; [done..|]. cbn. by rewrite Hx.
Qed.

Lemma existsb_same_slot_take pend (i j : nat) b b' :
  (j < i)%nat -> pend !! j = Some b' -> same_slot b b' = true ->
  existsb (same_slot b) (take i pend) = true.
Proof.
  intros Hji Hb' Hs. apply existsb_exists. exists b'. split; [|done].
  apply list_elem_of_In, elem_of_take. eauto.
Qed.

(** C8.  One scheduling pass for a trainer, on a table with unique primary
    keys, where [pend] lists the bookings pending for the trainer at the
    start in the order the pass takes them: the returned count is the
    number of those bookings; afterwards none is pending for the trainer;
    each of them is confirmed exactly when no booking taken earlier in the
    pass was confirmed for its date and time, and is rejected otherwise;
    every other row is untouched; and of two pending bookings for one slot
    with scores [s1 < s2] the second is rejected, and the first confirmed
    when the slot has no third pending booking. *)
Theorem scheduling_pass_exhaustive t trainer_id :
  NoDup (map id t) ->
  let pend := pending_bookings t trainer_id in
  let t' := (process_booking_queue clock t trainer_id).2 in
  (forall b, b ∈ pend <-> b ∈ t /\ trainer b = trainer_id /\ status b = pending) /\
  (process_booking_queue clock t trainer_id).1 =
    len (List.filter (is_pending_for trainer_id) t) /\
  pending_bookings t' trainer_id = [] /\
  (forall (i : nat) b, pend !! i = Some b ->
     (final_status t' b = Some confirmed \/ final_status t' b = Some rejected) /\
     (final_status t' b = Some confirmed <->
      ~ exists (j : nat) b',
          (j < i)%nat /\ pend !! j = Some b' /\ same_slot b b' = true /\
          final_status t' b' = Some confirmed) /\
     ORM.get id t' (id b) =
       Some (set_status b (decision (take i pend) b) (clock (Z.of_nat i)))) /\
  (forall n, n ∉ map id pend -> ORM.get id t' n = ORM.get id t n) /\
  (forall b1 b2,
     b1 ∈ pend -> b2 ∈ pend -> same_slot b1 b2 = true ->
     priority_score b1 < priority_score b2 ->
     final_status t' b2 = Some rejected /\
     ((forall b, b ∈ pend -> same_slot b b1 = true -> b = b1 \/ b = b2) ->
      final_status t' b1 = Some confirmed)).
Proof.
  intros Hpk pend t'.
  assert (NoDup (map id pend)) as Hids by by apply pending_bookings_ids.
  assert (t' = foldl (ORM.save id) t (decided [] pend)) as Ht'.
  { unfold t'. by rewrite process_booking_queue_eq. }
  assert (forall (i : nat) b, pend !! i = Some b ->
            final_status t' b = Some (decision (take i pend) b)) as Hfinal.
  { intros i b Hb. unfold final_status. by rewrite Ht', (get_decided t pend i b). }
  split_and!.
  - intros b. apply pending_bookings_elem.
  - rewrite process_booking_queue_eq. cbn [fst]. unfold len. f_equal.
    apply Permutation_length, order_by_Permutation.
  - unfold pending_bookings. rewrite filter_none; [done|].
    intros x Hx. rewrite Ht' in Hx.
    apply elem_of_foldl_save in Hx as [Hx|[Hx Hid]].
    + unfold is_pending_for.
      apply elem_of_decided in Hx as [-> | ->]; by rewrite andb_false_r.
    + destruct (is_pending_for trainer_id x) eqn:Hp; [|done].
      exfalso. apply Hid. rewrite decided_ids.
      apply list_elem_of_In, in_map, list_elem_of_In.
      apply pending_bookings_elem. unfold is_pending_for in Hp.
      apply andb_true_iff in Hp as [Ht%Nat.eqb_eq Hs%bool_decide_eq_true].
      done.
  - intros i b Hb. rewrite (Hfinal i b Hb). split_and!.
    + unfold decision. destruct (existsb _ _); auto.
    + unfold decision. destruct (existsb (same_slot b) (take i pend)) eqn:Hex.
      * split; [done|]. intros Hnone. exfalso. apply Hnone.
        destruct (first_same_slot _ _ Hex) as (j & b0 & Hj & Hs & Hfirst).
        apply lookup_take_Some in Hj as [Hj Hji].
        rewrite take_take, Nat.min_l in Hfirst by lia.
        exists j, b0. split_and!; [done..|].
        rewrite (Hfinal j b0 Hj). unfold decision.
        destruct (existsb (same_slot b0) (take j pend)) eqn:Hex0; [|done].
        apply existsb_exists in Hex0 as (d & Hd & Hsd).
        assert (existsb (same_slot b) (take j pend) = true); [|congruence].
        apply existsb_exists. exists d. split; [done|].
        by eapply same_slot_trans.
      * split; [|done]. intros _ (j & b' & Hji & Hb' & Hs & _).
        pose proof (existsb_same_slot_take pend i j b b' Hji Hb' Hs). congruence.
    + by rewrite Ht', (get_decided t pend i b).
  - intros n Hn. rewrite Ht'. apply get_foldl_save_other. by rewrite decided_ids.
  - intros b1 b2 [i1 H1]%list_elem_of_lookup_1 [i2 H2]%list_elem_of_lookup_1
      Hs Hlt.
    pose proof (pending_bookings_sorted t trainer_id) as Hsorted.
    fold pend in Hsorted.
    assert (i1 < i2)%nat as Hi.
    { destruct (decide (i1 < i2)%nat) as [|Hge]; [done|]. exfalso.
      destruct (decide (i1 = i2)) as [->|Hne]; [simplify_eq; lia|].
      pose proof (StronglySorted_lookup _ pend i2 i1 b2 b1 Hsorted) as Hle.
      unfold key_le in Hle. specialize (Hle ltac:(lia) H2 H1). lia. }
    rewrite (Hfinal i1 b1 H1), (Hfinal i2 b2 H2). unfold decision. split.
    + rewrite (existsb_same_slot_take pend i2 i1 b2 b1); [done..|].
      by rewrite same_slot_sym.
    + intros Honly.
      destruct (existsb (same_slot b1) (take i1 pend)) eqn:Hex; [|done].
      exfalso. apply existsb_exists in Hex as (d & Hd & Hsd).
      apply list_elem_of_In, elem_of_take in Hd as (j & Hj & Hji).
      rewrite same_slot_sym in Hsd.
      destruct (Honly d) as [-> | ->]; [by eapply list_elem_of_lookup_2|done|..].
      * pose proof (NoDup_map_lookup id pend j i1 b1 b1 Hids Hj H1 eq_refl). lia.
      * pose proof (NoDup_map_lookup id pend j i2 b2 b2 Hids Hj H2 eq_refl). lia.
Qed.

End Scheduling.

(** ** Worked examples *)

Open Scope string_scope.

(** *** The heap *)

(** Insert order (5,"x"), (2,"y"), (8,"z"), (1,"w"). *)
Definition example_heap : list (Z * string) :=
  [(1, "w"); (2, "y"); (8, "z"); (5, "x")].

Example example_heap_built :
  (h1 ← MinHeap.insert [] (5, "x");
   h2 ← MinHeap.insert h1 (2, "y");
   h3 ← MinHeap.insert h2 (8, "z");
   MinHeap.insert h3 (1, "w")) = Val example_heap.
Proof. reflexivity. Qed.

Example example_heap_drained :
  ('(r1, h1) ← MinHeap.extract_min example_heap;
   '(r2, h2) ← MinHeap.extract_min h1;
   '(r3, h3) ← MinHeap.extract_min h2;
   '(r4, h4) ← MinHeap.extract_min h3;
   Val ([r1; r2; r3; r4], h4))
  = Val ([Some (1, "w"); Some (2, "y"); Some (5, "x"); Some (8, "z")], []).
Proof. reflexivity. Qed.

Lemma example_heap_reachable : MinHeap.reachable example_heap.
Proof.
  apply (MinHeap.reachable_insert [(2, "y"); (5, "x"); (8, "z")] (1, "w"));
    [|reflexivity].
  apply (MinHeap.reachable_insert [(2, "y"); (5, "x")] (8, "z")); [|reflexivity].
  apply (MinHeap.reachable_insert [(5, "x")] (2, "y")); [|reflexivity].
  apply (MinHeap.reachable_insert [] (5, "x")); [|reflexivity].
  apply MinHeap.reachable_init.
Defined.

Lemma heap_validity_witness :
  MinHeap.reachable example_heap /\
  (forall index x y,
     MinHeap.has_parent index = true -> getitem example_heap index = Val x ->
     MinHeap.parent example_heap index = Val y ->
     MinHeap.score y <= MinHeap.score x) /\
  (forall x, exists h',
     MinHeap.insert example_heap x = Val h' /\ h' ≡ₚ x :: example_heap /\
     MinHeap.reachable h') /\
  (MinHeap.is_empty example_heap = false ->
   exists m h',
     MinHeap.extract_min example_heap = Val (Some m, h') /\ m ∈ example_heap /\
     (forall x, x ∈ example_heap -> MinHeap.score m <= MinHeap.score x) /\
     example_heap ≡ₚ m :: h' /\ MinHeap.reachable h').
Proof.
  split; [exact example_heap_reachable|].
  apply (heap_validity example_heap). exact example_heap_reachable.
Defined.

(** C7 as stated fails: the only child of the root scores the same as the
    root, not strictly less, and the iteration still exchanges the two and
    goes on at the child. *)
Lemma heapify_down_swaps_equal_scores :
  (forall c y, child_of 0 c -> [(1, "a"); (1, "b")] !! c = Some y ->
     ~ MinHeap.score y < MinHeap.score (1, "a")) /\
  MinHeap.heapify_down_step [(1, "a"); (1, "b")] 0 =
    Val (Continue ([(1, "b"); (1, "a")], 1)).
Proof.
  split; [|reflexivity]. intros c y [-> | ->] Hy; cbn in Hy; [|done].
  simplify_eq. cbn. lia.
Qed.

Lemma heapify_down_step_spec_witness :
  exists s, MinHeap.heapify_down_step [(1, "a"); (1, "b")] (Z.of_nat 0) = Val s /\
  match s with
  | Break (h', index') =>
      h' = [(1, "a"); (1, "b")] /\ index' = Z.of_nat 0 /\
      forall c y, child_of 0 c -> [(1, "a"); (1, "b")] !! c = Some y ->
                  MinHeap.score (1, "a") < MinHeap.score y
  | Continue (h', index') =>
      exists c y,
        index' = Z.of_nat c /\ child_of 0 c /\
        [(1, "a"); (1, "b")] !! c = Some y /\
        MinHeap.score y <= MinHeap.score (1, "a") /\
        (forall c' y', child_of 0 c' -> [(1, "a"); (1, "b")] !! c' = Some y' ->
                       MinHeap.score y <= MinHeap.score y') /\
        (c = (2 * 0 + 2)%nat ->
         exists l, [(1, "a"); (1, "b")] !! (2 * 0 + 1)%nat = Some l /\
                   MinHeap.score y < MinHeap.score l) /\
        h' = swapped [(1, "a"); (1, "b")] 0 c (1, "a") y
  end.
Proof. apply (heapify_down_step_spec [(1, "a"); (1, "b")] 0 (1, "a")). reflexivity. Defined.

(** *** Empty containers *)

(** C6 as stated fails: on an empty container each of the four operations
    returns the value [None]; none raises, [EmptyError] or anything else. *)
Lemma empty_operations_return_None :
  @SessionJoinQueue.dequeue string [] = Val (None, []) /\
  @SessionJoinQueue.peek string [] = Val None /\
  @MinHeap.extract_min string [] = Val (None, []) /\
  @MinHeap.get_min string [] = Val None /\
  @SessionJoinQueue.dequeue string [] <> Exc EmptyError /\
  @SessionJoinQueue.peek string [] <> Exc EmptyError /\
  @MinHeap.extract_min string [] <> Exc EmptyError /\
  @MinHeap.get_min string [] <> Exc EmptyError.
Proof. by split_and!. Qed.

Lemma empty_container_returns_None_witness :
  (exists q', @SessionJoinQueue.dequeue string [] = Val (None, q')) /\
  @SessionJoinQueue.peek string [] = Val None /\
  (exists h', @MinHeap.extract_min string [] = Val (None, h')) /\
  @MinHeap.get_min string [] = Val None /\
  (forall e, @SessionJoinQueue.dequeue string [] <> Exc e /\
             @SessionJoinQueue.peek string [] <> Exc e /\
             @MinHeap.extract_min string [] <> Exc e /\
             @MinHeap.get_min string [] <> Exc e).
Proof. apply (empty_container_returns_None (T:=string) [] []); reflexivity. Defined.

Lemma empty_container_unchanged_witness :
  @SessionJoinQueue.dequeue string [] = Val (None, []) /\
  @SessionJoinQueue.peek string [] = Val None /\
  @MinHeap.extract_min string [] = Val (None, []) /\
  @MinHeap.get_min string [] = Val None.
Proof. apply (empty_container_unchanged (T:=string) [] []); reflexivity. Defined.

Close Scope string_scope.

(** *** Admission *)

Lemma admission_fairness_witness :
  exists db',
    FitnessSessions.process_join_queue example_db 1 = (Val (), db') /\
    FitnessSessions.participants db' =
      FitnessSessions.participants example_db ++
      map (participant_for example_session)
          (take 2 (FitnessSessions.join_requests example_db)) /\
    FitnessSessions.get_current_participants_count db' example_session = Z.of_nat 2 /\
    (forall (i : nat) r,
       FitnessSessions.join_requests example_db !! i = Some r ->
       FitnessSessions.processed r = false /\
       ORM.get FitnessSessions.request_id (FitnessSessions.join_requests db')
               (FitnessSessions.request_id r) =
         Some (if decide (i < 2)%nat then FitnessSessions.set_outcome r true true
               else if decide (i = 2%nat) then FitnessSessions.set_outcome r true false
               else r)) /\
    (forall n,
       n ∉ map FitnessSessions.request_id (FitnessSessions.join_requests example_db) ->
       ORM.get FitnessSessions.request_id (FitnessSessions.join_requests db') n =
       ORM.get FitnessSessions.request_id (FitnessSessions.join_requests example_db) n).
Proof.
  apply (admission_fairness example_db 1 example_session 2
           (FitnessSessions.join_requests example_db)).
  - compute_done.
  - reflexivity.
  - reflexivity.
  - reflexivity.
  - repeat constructor; cbn; lia.
  - reflexivity.
  - cbn. lia.
  - compute_done.
Defined.

Lemma capacity_invariant_witness :
  FitnessSessions.get_session
    (FitnessSessions.process_join_queue example_db 1).2 1 = Val example_session /\
  FitnessSessions.get_current_participants_count
    (FitnessSessions.process_join_queue example_db 1).2 example_session
  <= FitnessSessions.capacity example_session.
Proof.
  apply (capacity_invariant example_db
           (FitnessSessions.process_join_queue example_db 1).2 1 example_session).
  - reflexivity.
  - by vm_compute.
  - eapply FitnessSessions.steps_snoc;
      [apply FitnessSessions.steps_refl|apply FitnessSessions.step_pass].
Defined.

(** *** Scheduling *)

Definition example_clock (n : Z) : Z := 5000 + n.

Definition example_booking (n c : nat) (date time score created : Z)
  : TrainerBookings.TrainerBooking :=
  {| TrainerBookings.id := n; TrainerBookings.client := c;
     TrainerBookings.trainer := 1;
     TrainerBookings.requested_date := date;
     TrainerBookings.requested_time := time;
     TrainerBookings.priority_score := score;
     TrainerBookings.status := TrainerBookings.pending;
     TrainerBookings.created_at := created;
     TrainerBookings.processed_at := None |}.

(** Scores 100 and 200 for 2024-01-01 09:00, score 150 for 10:00. *)
Definition example_table : list TrainerBookings.TrainerBooking :=
  [ example_booking 1 7 19723 32400 100 1;
    example_booking 2 8 19723 32400 200 2;
    example_booking 3 9 19723 36000 150 3 ].

Example scheduling_example :
  let '(n, t') := TrainerBookings.process_booking_queue example_clock example_table 1 in
  (n, map (fun b => (TrainerBookings.id b, TrainerBookings.status b)) t') =
  (3, [ (1%nat, TrainerBookings.confirmed); (2%nat, TrainerBookings.rejected);
        (3%nat, TrainerBookings.confirmed) ]).
Proof. reflexivity. Qed.

Lemma scheduling_pass_exhaustive_witness :
  NoDup (map TrainerBookings.id example_table) /\
  (TrainerBookings.process_booking_queue example_clock example_table 1).1 = 3 /\
  TrainerBookings.pending_bookings
    (TrainerBookings.process_booking_queue example_clock example_table 1).2 1 = [].
Proof.
  assert (NoDup (map TrainerBookings.id example_table)) as Hpk by compute_done.
  split; [exact Hpk|].
  destruct (scheduling_pass_exhaustive example_clock example_table 1 Hpk)
    as (_ & Hcount & Hnone & _).
  split; [exact Hcount|exact Hnone].
Defined.

(** C2 fails on the code.  A booking is filed and a pass confirms it; a
    second booking for the same slot is filed and the next pass, which
    starts from an empty [confirmed_times], confirms it too: the trainer
    now holds two confirmed bookings for one slot. *)
Theorem second_pass_confirms_taken_slot :
  let t1 := TrainerBookings.create_booking [] 7 1 19723 32400 1000 in
  let t2 := (TrainerBookings.process_booking_queue example_clock t1 1).2 in
  let t3 := TrainerBookings.create_booking t2 8 1 19723 32400 2000 in
  let t4 := (TrainerBookings.process_booking_queue example_clock t3 1).2 in
  map (fun b => (TrainerBookings.id b, TrainerBookings.trainer b,
                 TrainerBookings.requested_date b, TrainerBookings.requested_time b,
                 TrainerBookings.status b)) t4 =
  [ (1%nat, 1%nat, 19723, 32400, TrainerBookings.confirmed);
    (2%nat, 1%nat, 19723, 32400, TrainerBookings.confirmed) ].
Proof. reflexivity. Qed.

(** Two pending bookings of one trainer for one slot, hence with one
    score; the row stored first was created later. *)
Definition tie_table : list TrainerBookings.TrainerBooking :=
  [ example_booking 1 7 19723 32400 1704099600 200;
    example_booking 2 8 19723 32400 1704099600 100 ].

(** C4 fails on the code.  The query orders by [priority_score] alone, so
    bookings with equal scores are taken as the store yields them: here the
    booking created later is processed first and confirmed, and the one
    created earlier is rejected. *)
Theorem equal_scores_ignore_created_at :
  map (fun b => (TrainerBookings.id b, TrainerBookings.priority_score b,
                 TrainerBookings.created_at b))
      (TrainerBookings.pending_bookings tie_table 1) =
    [ (1%nat, 1704099600, 200); (2%nat, 1704099600, 100) ] /\
  map (fun b => (TrainerBookings.id b, TrainerBookings.status b,
                 TrainerBookings.processed_at b))
      (TrainerBookings.process_booking_queue example_clock tie_table 1).2 =
    [ (1%nat, TrainerBookings.confirmed, Some 5000);
      (2%nat, TrainerBookings.rejected, Some 5001) ].
Proof. split; reflexivity. Qed.

(** * Further operations and what they keep

    The parts of the same files that the properties above do not reach:
    building and draining a heap, the rest of the queue, the stack of
    recently viewed sessions, and the views that file, admit, leave,
    cancel and list. *)

(** ** Using the heap as a priority queue *)

Module PriorityQueue.
Section PriorityQueue.

Context {T : Type}.

(** [for x in items: heap.insert(x)] *)
Definition insert_all (h : list (Z * T)) (items : list (Z * T)) : res (list (Z * T)) :=
  foldl (fun r x => h' ← r; MinHeap.insert h' x) (Val h) items.

(** [while not heap.is_empty(): out.append(heap.extract_min())] *)
Fixpoint extract_all (fuel : nat) (h : list (Z * T)) : res (list (option (Z * T))) :=
  match fuel with
  | O => OutOfFuel
  | S fuel' =>
      if MinHeap.is_empty h then Val []
      else
        '(r, h') ← MinHeap.extract_min h;
        out ← extract_all fuel' h';
        Val (r :: out)
  end.

End PriorityQueue.
End PriorityQueue.

Section PriorityQueueFacts.

Context {T : Type}.
Implicit Types (h : list (Z * T)) (x y : Z * T) (k c p : nat).

Import MinHeap.

Definition score_le (x y : Z * T) : Prop := score x <= score y.

Lemma heap_is_empty_cons x h : is_empty (x :: h) = false.
Proof. unfold is_empty, len. apply Z.eqb_neq. cbn [length]. lia. Qed.

Lemma insert_all_correct items : forall h,
  heap_ordered h ->
  exists h', PriorityQueue.insert_all h items = Val h' /\
             h' ≡ₚ h ++ items /\ heap_ordered h'.
Proof.
  unfold PriorityQueue.insert_all.
  induction items as [|x items IH]; intros h Ho; cbn [foldl].
  - exists h. by rewrite app_nil_r.
  - destruct (insert_correct h x) as (h1 & Hrun & Hperm & Hord).
    res_simpl. rewrite Hrun.
    destruct (IH h1 (Hord Ho)) as (h' & Hrun' & Hperm' & Ho').
    exists h'. split_and!; [done| |done].
    rewrite Hperm', Hperm. by rewrite (Permutation_middle h items x).
Qed.

Lemma extract_all_correct fuel : forall h,
  (length h < fuel)%nat -> heap_ordered h ->
  exists out, PriorityQueue.extract_all fuel h = Val (map Some out) /\
              out ≡ₚ h /\ StronglySorted score_le out.
Proof.
  induction fuel as [|fuel IH]; intros h Hfuel Ho; [lia|].
  cbn [PriorityQueue.extract_all]. destruct h as [|m t].
  - exists []. split_and!; [done..|constructor].
  - rewrite heap_is_empty_cons.
    destruct (extract_min_correct (m :: t) m t eq_refl) as (h' & Hrun & Hperm & Hord).
    rewrite Hrun. res_simpl.
    assert (length h' = length t) as Hlen.
    { apply Permutation_length in Hperm. cbn [length] in Hperm. lia. }
    destruct (IH h') as (out & Hout & Hperm' & Hsorted);
      [cbn [length] in Hfuel; lia|by apply Hord|].
    rewrite Hout. res_simpl. exists (m :: out). split_and!; [done| |].
    + by rewrite Hperm', Hperm.
    + constructor; [done|]. apply Forall_forall. intros x Hx.
      apply (root_minimal (m :: t) m Ho eq_refl).
      rewrite Hperm. right. by rewrite <- Hperm'.
Qed.

(** Heap sort.  Inserting any items into a new heap and then extracting
    until the heap is empty returns every item exactly once, in ascending
    order of score; no call raises. *)
Theorem insert_all_extract_all_sorts (items : list (Z * T)) :
  exists h out,
    PriorityQueue.insert_all [] items = Val h /\
    PriorityQueue.extract_all (S (length h)) h = Val (map Some out) /\
    out ≡ₚ items /\
    StronglySorted score_le out.
Proof.
  destruct (insert_all_correct items []) as (h & Hrun & Hperm & Ho);
    [apply heap_ordered_nil|].
  destruct (extract_all_correct (S (length h)) h) as (out & Hout & Hperm' & Hs);
    [lia|done|].
  exists h, out. split_and!; [done..| |done]. by rewrite Hperm', Hperm.
Qed.

(** [get_min] on an array that [insert] and [extract_min] calls produced
    and that is not empty returns an item of least score, the very item
    the next [extract_min] returns, and [extract_min] then leaves one item
    fewer. *)
Theorem get_min_is_next_extracted h :
  reachable h -> is_empty h = false ->
  exists m h',
    get_min h = Val (Some m) /\
    extract_min h = Val (Some m, h') /\
    (forall x, x ∈ h -> score m <= score x) /\
    size h' = size h - 1.
Proof.
  intros Hr Hne. destruct h as [|m t]; [done|].
  destruct (extract_min_correct (m :: t) m t eq_refl) as (h' & Hrun & Hperm & _).
  exists m, h'. split_and!.
  - unfold get_min. by rewrite Hne.
  - done.
  - apply root_minimal; [by apply reachable_ordered|done].
  - unfold size, len. apply Permutation_length in Hperm.
    rewrite Hperm. cbn [length]. lia.
Qed.

(** One iteration of the sift-up at an occupied index [k] never raises.
    It stops, leaving the array as it is, at the root or when the parent
    scores no more than the node (equal scores are not exchanged); else it
    exchanges the node with its parent, which scores strictly more, and
    goes on at the parent. *)
Theorem heapify_up_step_spec h k x :
  h !! k = Some x ->
  exists s, heapify_up_step h (Z.of_nat k) = Val s /\
  match s with
  | Break (h', index') =>
      h' = h /\ index' = Z.of_nat k /\
      forall p y, child_of p k -> h !! p = Some y -> score y <= score x
  | Continue (h', index') =>
      exists p y,
        index' = Z.of_nat p /\ index' = get_parent_index (Z.of_nat k) /\
        child_of p k /\ h !! p = Some y /\ score x < score y /\
        h' = swapped h k p x y
  end.
Proof.
  intros Hx. destruct k as [|k'].
  - eexists. split; [apply heapify_up_step_root|].
    split_and!; [done..|]. intros p y Hc%child_of_gt. lia.
  - set (k := S k') in *.
    destruct (parent_index_nat k) as (p & Hp & Hc); [lia|].
    pose proof (child_of_gt _ _ Hc) as Hgt.
    destruct (lookup_lt_is_Some_2 h p) as [y Hy].
    { apply lookup_lt_Some in Hx. lia. }
    eexists. split; [by apply (heapify_up_step_child h k p x y)|].
    destruct (score x <? score y) eqn:Hcmp.
    + exists p, y. split_and!; [done..|lia|done].
    + split_and!; [done..|]. intros p' y' Hc' Hy'.
      pose proof (child_of_parent_unique _ _ _ Hc Hc') as <-.
      simplify_eq. lia.
Qed.

(** [insert] on any array, ordered or not, returns; the result holds the
    old items and the new one and nothing else.  When the new item scores
    no less than the item at its parent position it stays at the end, so
    an item never overtakes an equal score above it. *)
Theorem insert_keeps_items h x :
  (exists h', insert h x = Val h' /\ h' ≡ₚ x :: h /\ size h' = size h + 1) /\
  (forall p y, child_of p (length h) -> h !! p = Some y -> score y <= score x ->
     insert h x = Val (h ++ [x])) /\
  (h = [] -> insert h x = Val [x]).
Proof.
  split_and!.
  - destruct (insert_correct h x) as (h' & Hrun & Hperm & _).
    exists h'. split_and!; [done..|]. unfold size, len.
    apply Permutation_length in Hperm. rewrite Hperm. cbn [length]. lia.
  - intros p y Hc Hy Hle. unfold insert, heapify_up.
    replace (len (h ++ [x]) - 1) with (Z.of_nat (length h)).
    2:{ unfold len. rewrite length_app. cbn [length]. lia. }
    cbn [heapify_up_loop].
    pose proof (child_of_gt _ _ Hc) as Hgt.
    rewrite (heapify_up_step_child (h ++ [x]) (length h) p x y Hc).
    + by rewrite (proj2 (Z.ltb_ge _ _)) by lia.
    + by rewrite lookup_app_r, Nat.sub_diag.
    + by apply lookup_app_l_Some.
  - by intros ->.
Qed.

End PriorityQueueFacts.

(** ** First in, first out *)

Module QueueUse.
Section QueueUse.

Context {T : Type}.

(** [while not queue.is_empty(): out.append(queue.dequeue())] *)
Fixpoint dequeue_all (fuel : nat) (q : list T) : res (list (option T)) :=
  match fuel with
  | O => OutOfFuel
  | S fuel' =>
      if SessionJoinQueue.is_empty q then Val []
      else
        '(r, q') ← SessionJoinQueue.dequeue q;
        out ← dequeue_all fuel' q';
        Val (r :: out)
  end.

End QueueUse.
End QueueUse.

Section QueueFacts.

Context {T : Type}.
Implicit Types (q l : list T) (x : T).

Lemma dequeue_all_items fuel : forall q,
  (length q < fuel)%nat -> QueueUse.dequeue_all fuel q = Val (map Some q).
Proof.
  induction fuel as [|fuel IH]; intros q Hfuel; [lia|].
  cbn [QueueUse.dequeue_all]. destruct q as [|x q]; [done|].
  rewrite queue_is_empty_cons, dequeue_cons. res_simpl.
  rewrite IH by (cbn [length] in Hfuel; lia). done.
Qed.

(** Items leave the queue in the order they entered it: after the items
    [l] are enqueued behind the items [q], dequeuing until the queue is
    empty returns the items of [q] and then those of [l], each once, in
    that order. *)
Theorem enqueue_dequeue_order q l :
  QueueUse.dequeue_all (S (length (q ++ l))) (foldl SessionJoinQueue.enqueue q l)
  = Val (map Some (q ++ l)).
Proof. rewrite foldl_enqueue. apply dequeue_all_items. lia. Qed.

(** [peek] returns what [dequeue] returns and removes nothing; [dequeue]
    removes exactly the front item, and [enqueue] does not disturb the
    front of a queue that has one. *)
Theorem peek_is_front q :
  exists v q',
    SessionJoinQueue.dequeue q = Val (v, q') /\
    SessionJoinQueue.peek q = Val v /\
    v = head q /\ q' = tail q /\
    (forall x, v <> None ->
       SessionJoinQueue.peek (SessionJoinQueue.enqueue q x) = Val v /\
       SessionJoinQueue.size (SessionJoinQueue.enqueue q' x) = SessionJoinQueue.size q).
Proof.
  destruct q as [|y q].
  - exists None, []. by split_and!.
  - exists (Some y), q. rewrite dequeue_cons. split_and!; [done..|].
    intros x _. split; [done|].
    unfold SessionJoinQueue.size, SessionJoinQueue.enqueue, len.
    rewrite length_app. cbn [length]. lia.
Qed.

End QueueFacts.

(** ** [fitness_sessions/stack.py] *)

Module RecentSessionsStack.
Section RecentSessionsStack.

Context {T : Type}.

Record stack : Type := {
  items : list T;
  max_size : Z
}.

(** [RecentSessionsStack(max_size)] *)
Definition init (max_size : Z) : stack := {| items := []; max_size := max_size |}.

Definition is_empty (s : stack) : bool := len (items s) =? 0.

Definition size (s : stack) : Z := len (items s).

Definition push (s : stack) (item : T) : res stack :=
  let items1 := items s ++ [item] in
  if max_size s <? len items1 then
    '(_, items2) ← pop0 items1;
    Val {| items := items2; max_size := max_size s |}
  else Val {| items := items1; max_size := max_size s |}.

(** Returns the pair of the returned value and the stack afterwards. *)
Definition pop (s : stack) : res (option T * stack) :=
  if negb (is_empty s) then
    '(x, items') ← Py.pop (items s);
    Val (Some x, {| items := items'; max_size := max_size s |})
  else Val (None, s).

Definition peek (s : stack) : res (option T) :=
  if negb (is_empty s) then
    x ← getitem (items s) (-1);
    Val (Some x)
  else Val None.

Definition get_all (s : stack) : list T := rev (items s).

(** The stack part of [session_detail]: the stored ids are pushed on a new
    stack of five, then the viewed session, and the items are stored. *)
Definition recent_sessions_after_view (recent_session_ids : list T) (session_id : T)
  : res (list T) :=
  s ← foldl (fun r sid => s ← r; push s sid) (Val (init 5)) recent_session_ids;
  s' ← push s session_id;
  Val (items s').

End RecentSessionsStack.
End RecentSessionsStack.

Section StackFacts.

Context {T : Type}.
Implicit Types (s : @RecentSessionsStack.stack T) (l : list T) (x : T).

Import RecentSessionsStack.

(** What [push] leaves in [self.items]. *)
Lemma push_items s x :
  push s x =
    Val {| items := if max_size s <? len (items s) + 1
                    then drop 1 (items s ++ [x]) else items s ++ [x];
           max_size := max_size s |}.
Proof.
  unfold push. rewrite len_app. change (len [x]) with 1.
  destruct (max_size s <? len (items s) + 1); [|done].
  by destruct (items s).
Qed.

Lemma peek_top l x m : peek {| items := l ++ [x]; max_size := m |} = Val (Some x).
Proof.
  unfold peek, is_empty. cbn [items].
  assert (len (l ++ [x]) = len l + 1) as Hlen.
  { rewrite len_app. done. }
  pose proof (len_nonneg l) as Hl.
  rewrite (proj2 (Z.eqb_neq (len (l ++ [x])) 0)) by lia.
  cbn [negb]. unfold getitem. replace (-1 <? 0) with true by done.
  rewrite (proj2 (andb_true_iff _ _)) by (split; lia).
  replace (Z.to_nat (-1 + len (l ++ [x]))) with (length l) by (unfold len in *; lia).
  by rewrite lookup_app_r, Nat.sub_diag.
Qed.

Lemma pop_top l x m :
  pop {| items := l ++ [x]; max_size := m |} =
    Val (Some x, {| items := l; max_size := m |}).
Proof.
  unfold pop, is_empty. cbn [items max_size].
  assert (len (l ++ [x]) = len l + 1) as Hlen by by rewrite len_app.
  pose proof (len_nonneg l) as Hl.
  rewrite (proj2 (Z.eqb_neq (len (l ++ [x])) 0)) by lia.
  cbn [negb]. unfold Py.pop. by rewrite last_snoc, removelast_last.
Qed.

(** [push] never raises and keeps the stack within its limit: a stack
    that holds at most [max_size] items still does after a push, and a
    larger one does not grow.  The pushed item is on top unless the limit
    is below one and the stack was empty, in which case the item is
    dropped at once. *)
Theorem push_within_limit s x :
  exists s',
    push s x = Val s' /\ max_size s' = max_size s /\
    (size s <= max_size s -> size s' <= max_size s) /\
    size s' <= Z.max (size s) (max_size s) /\
    (1 <= max_size s \/ items s <> [] -> peek s' = Val (Some x)) /\
    (max_size s <= 0 -> items s = [] -> items s' = [] /\ peek s' = Val None).
Proof.
  rewrite push_items. eexists. split; [done|]. cbn [items max_size].
  unfold size. cbn [items]. pose proof (len_nonneg (items s)) as Hnn.
  destruct (max_size s <? len (items s) + 1) eqn:Hcmp.
  - apply Z.ltb_lt in Hcmp.
    assert (len (drop 1 (items s ++ [x])) = len (items s)) as Hlen.
    { unfold len. rewrite length_drop, length_app. cbn [length]. lia. }
    split_and!; [done|lia|lia| |].
    + intros Hcase. destruct (items s) as [|y l] eqn:Hi.
      { unfold len in Hcmp. cbn [length] in Hcmp. destruct Hcase; [lia|done]. }
      cbn [app drop]. rewrite drop_0. apply peek_top.
    + by intros _ ->.
  - apply Z.ltb_ge in Hcmp.
    rewrite len_app. change (len [x]) with 1. split_and!; [done|lia|lia| |].
    + intros _. apply peek_top.
    + intros Hm Hi. rewrite Hi in Hcmp. unfold len in Hcmp.
      cbn [length] in Hcmp. lia.
Qed.

(** Last in, first out.  On a stack whose limit is at least one, [pop]
    after [push] returns the pushed item and leaves the items that were
    there before, without the oldest one when the stack was full; and
    [pop] agrees with [peek] and with the head of [get_all]. *)
Theorem push_pop s x :
  1 <= max_size s ->
  exists s1 s2,
    push s x = Val s1 /\ pop s1 = Val (Some x, s2) /\
    peek s1 = Val (Some x) /\ head (get_all s1) = Some x /\
    items s2 = (if max_size s <? size s + 1 then drop 1 (items s) else items s).
Proof.
  intros Hmax. rewrite push_items. unfold size, get_all.
  pose proof (len_nonneg (items s)) as Hnn.
  destruct (max_size s <? len (items s) + 1) eqn:Hcmp.
  - apply Z.ltb_lt in Hcmp. destruct (items s) as [|y l] eqn:Hi.
    { unfold len in Hcmp. cbn [length] in Hcmp. lia. }
    cbn [app drop]. rewrite !drop_0.
    exists {| items := l ++ [x]; max_size := max_size s |},
           {| items := l; max_size := max_size s |}.
    split_and!; [done|apply pop_top|apply peek_top| |done].
    cbn [items]. by rewrite rev_unit.
  - exists {| items := items s ++ [x]; max_size := max_size s |},
           {| items := items s; max_size := max_size s |}.
    split_and!; [done|apply pop_top|apply peek_top| |done].
    cbn [items]. by rewrite rev_unit.
Qed.

Lemma push_all_last (m : nat) l : forall l0,
  (1 <= m)%nat ->
  foldl (fun r sid => s ← r; push s sid)
        (Val {| items := drop (length l0 - m) l0; max_size := Z.of_nat m |}) l
  = Val {| items := drop (length (l0 ++ l) - m) (l0 ++ l);
           max_size := Z.of_nat m |}.
Proof.
  induction l as [|x l IH]; intros l0 Hm; cbn [foldl].
  - by rewrite app_nil_r.
  - res_simpl. rewrite push_items. cbn [items max_size].
    replace (l0 ++ x :: l) with ((l0 ++ [x]) ++ l) by by rewrite <- app_assoc.
    rewrite <- (IH (l0 ++ [x]) Hm). do 3 f_equal.
    unfold len. rewrite length_drop, !length_app. cbn [length].
    destruct (decide (m <= length l0)%nat) as [Hfull|Hroom].
    + rewrite (proj2 (Z.ltb_lt _ _)) by lia.
      rewrite <- drop_app_le by lia. rewrite drop_drop. f_equal. lia.
    + rewrite (proj2 (Z.ltb_ge _ _)) by lia.
      replace (length l0 - m)%nat with 0%nat by lia.
      replace (length l0 + 1 - m)%nat with 0%nat by lia. by rewrite !drop_0.
Qed.

(** What [session_detail] stores as recently viewed: the last five of the
    ids stored before followed by the session just viewed, oldest first,
    whatever was stored; a session viewed again is listed again. *)
Theorem recent_sessions_last_five (recent_session_ids : list T) (session_id : T) :
  recent_sessions_after_view recent_session_ids session_id =
    Val (drop (length (recent_session_ids ++ [session_id]) - 5)
              (recent_session_ids ++ [session_id])) /\
  (forall l, recent_sessions_after_view recent_session_ids session_id = Val l ->
     (length l <= 5)%nat /\ last l = Some session_id).
Proof.
  assert (recent_sessions_after_view recent_session_ids session_id =
          Val (drop (length (recent_session_ids ++ [session_id]) - 5)
                 (recent_session_ids ++ [session_id]))) as Hrun.
  { unfold recent_sessions_after_view, init.
    pose proof (push_all_last 5 (recent_session_ids ++ [session_id]) []) as H.
    cbn [length drop app] in H. change (Z.of_nat 5) with 5 in H.
    rewrite foldl_app in H. cbn [foldl] in H.
    destruct (foldl _ _ recent_session_ids) as [s0| |]; res_simpl.
    - specialize (H ltac:(lia)). cbn [mbind res_bind Py.bind] in H.
      destruct (push s0 session_id) as [s1| |]; res_simpl; by simplify_eq.
    - by specialize (H ltac:(lia)).
    - by specialize (H ltac:(lia)). }
  split; [done|]. intros l Hl. rewrite Hrun in Hl. simplify_eq. split.
  - rewrite length_drop. lia.
  - rewrite length_app. cbn [length].
    rewrite drop_app_le by lia. by rewrite last_snoc.
Qed.

End StackFacts.

(** ** The views of [fitness_sessions/views.py] that file and leave *)

Module SessionViews.

Import FitnessSessions.

(** The flash message a view leaves before it redirects. *)
Inductive message : Set :=
| AlreadyJoined   (* warning: "You have already joined this session!" *)
| Joined          (* success: "Successfully joined ..." *)
| SessionFull     (* error: "Session is full. Could not join." *)
| HasLeft         (* success: "You have left ..." *)
| NotParticipant. (* warning: "You are not a participant of this session" *)

(** How a view ends: [get_object_or_404] found nothing, a redirect with a
    message, or an exception nobody caught. *)
Inductive outcome : Set :=
| Http404
| Redirect (m : message)
| Raised (e : exn)
| MultipleObjectsReturned
| Diverged.

(** The primary key an insertion gets: one more than the largest. *)
Definition next_request_id (rs : list JoinRequestQueue) : nat :=
  S (foldr Nat.max O (map request_id rs)).

(** [join_session]; [now] is the time that [auto_now_add] stamps on the new
    request.  Returns how the view ends and the database afterwards. *)
Definition join_session (db : DB) (sid : nat) (user : nat) (now : Z)
  : outcome * DB :=
  match get_session db sid with
  | Val session =>
      if has_user_joined db session user then (Redirect AlreadyJoined, db)
      else
        let join_request :=
          {| request_id := next_request_id (join_requests db);
             request_session := session_id session;
             request_user := user; timestamp := now;
             processed := false; success := false |} in
        let db1 := set_join_requests db (join_requests db ++ [join_request]) in
        match process_join_queue db1 (session_id session) with
        | (Val _, db2) =>
            (* join_request.refresh_from_db() *)
            match ORM.get request_id (join_requests db2) (request_id join_request) with
            | Some fresh =>
                (Redirect (if success fresh then Joined else SessionFull), db2)
            | None => (Raised DoesNotExist, db2)
            end
        | (Exc e, db2) => (Raised e, db2)
        | (OutOfFuel, db2) => (Diverged, db2)
        end
  | _ => (Http404, db)
  end.

Definition is_participation (session : Session) (user : nat)
    (p : SessionParticipant) : bool :=
  Nat.eqb (participant_session p) (session_id session)
  && Nat.eqb (participant_user p) user.

(** [leave_session]: [SessionParticipant.objects.get(session=..., user=...)]
    wants exactly one row; [DoesNotExist] is caught, and the row found is
    deleted. *)
Definition leave_session (db : DB) (sid : nat) (user : nat) : outcome * DB :=
  match get_session db sid with
  | Val session =>
      match List.filter (is_participation session user) (participants db) with
      | [] => (Redirect NotParticipant, db)
      | [_] =>
          (Redirect HasLeft,
           set_participants db
             (List.filter (fun p => negb (is_participation session user p))
                          (participants db)))
      | _ => (MultipleObjectsReturned, db)
      end
  | _ => (Http404, db)
  end.

End SessionViews.

Section SessionViewFacts.

Import FitnessSessions SessionViews.

Implicit Types (db : DB) (s : Session) (r : JoinRequestQueue)
  (queue rs : list JoinRequestQueue).

Lemma process_join_queue_admit_all db sid s :
  get_session db sid = Val s ->
  process_join_queue db sid = admit_all s db (pending_requests db s).
Proof.
  intros Hget. unfold process_join_queue. rewrite Hget.
  unfold SessionJoinQueue.init. rewrite foldl_enqueue, app_nil_l.
  apply process_join_loop_admit_all. lia.
Qed.

Lemma get_save_request db r n :
  ORM.get request_id (join_requests (save_request db r)) n =
    if decide (n = request_id r) then Some r
    else ORM.get request_id (join_requests db) n.
Proof.
  unfold save_request. cbn [join_requests set_join_requests].
  case_decide as Hn; [subst; apply get_save_eq|by apply get_save_ne].
Qed.

(** A pass for a session that does not exist raises [DoesNotExist], and a
    pass for a session without pending requests returns; neither changes
    the database. *)
Theorem pass_nothing_to_do db sid :
  (get_session db sid = Exc DoesNotExist ->
   process_join_queue db sid = (Exc DoesNotExist, db)) /\
  (forall s, get_session db sid = Val s ->
     (forall r, r ∈ join_requests db ->
        request_session r = sid -> processed r = true) ->
     process_join_queue db sid = (Val (), db)).
Proof.
  split.
  - unfold process_join_queue. by intros ->.
  - intros s Hget Hnone. rewrite (process_join_queue_admit_all db sid s Hget).
    unfold pending_requests. rewrite filter_none; [done|].
    intros r Hr. unfold is_pending_for.
    rewrite (get_session_id db sid s Hget).
    destruct (Nat.eqb (request_session r) sid) eqn:Hs; [|done].
    apply Nat.eqb_eq in Hs. by rewrite (Hnone r Hr Hs).
Qed.

(** A pass for a full session (also one whose capacity is zero or
    negative) creates no participant.  It marks the earliest pending
    request processed and unsuccessful, and leaves every other request row
    as it was; so each pass takes exactly one request off a full session's
    queue. *)
Theorem pass_on_full_session db sid s r rs :
  get_session db sid = Val s ->
  is_full db s = true ->
  pending_requests db s = r :: rs ->
  exists db',
    process_join_queue db sid = (Val (), db') /\
    sessions db' = sessions db /\
    participants db' = participants db /\
    (forall n, ORM.get request_id (join_requests db') n =
               if decide (n = request_id r) then Some (set_outcome r true false)
               else ORM.get request_id (join_requests db) n).
Proof.
  intros Hget Hfull Hpend. unfold is_full in Hfull. apply Z.leb_le in Hfull.
  rewrite (process_join_queue_admit_all db sid s Hget), Hpend.
  cbn [admit_all]. rewrite (proj2 (Z.ltb_ge _ _)) by lia.
  eexists. split_and!; [done..|]. intros n.
  exact (get_save_request db (set_outcome r true false) n).
Qed.

(** *** No user twice in a session *)

Lemma has_user_joined_false db s user :
  has_user_joined db s user = false ->
  {| participant_session := session_id s; participant_user := user |}
    ∉ participants db.
Proof.
  unfold has_user_joined. intros Hex Hin.
  assert (existsb (fun p => Nat.eqb (participant_session p) (session_id s)
                            && Nat.eqb (participant_user p) user)
                  (participants db) = true); [|congruence].
  apply existsb_exists. eexists. split; [by apply list_elem_of_In|].
  cbn. by rewrite !Nat.eqb_refl.
Qed.



End SessionViewFacts.

Section FreshKeys.

Context {Row : Type} (pk : Row -> nat).
Implicit Types (t : list Row) (x obj : Row).

Lemma next_key_fresh t x : x ∈ t -> (pk x < S (foldr Nat.max O (map pk t)))%nat.
Proof.
  induction t as [|y t IH]; intros Hx; [by apply elem_of_nil in Hx|].
  cbn [map foldr]. apply elem_of_cons in Hx as [->|Hx]; [lia|].
  specialize (IH Hx). lia.
Qed.

Lemma save_last t x obj :
  (forall y, y ∈ t -> pk y <> pk x) -> pk obj = pk x ->
  ORM.save pk (t ++ [x]) obj = t ++ [obj].
Proof.
  intros Hfresh Hpk. unfold ORM.save.
  rewrite existsb_app, map_app. cbn [existsb map]. rewrite Hpk, Nat.eqb_refl.
  rewrite orb_true_r. f_equal.
  induction t as [|y t IH]; [done|]. cbn [map].
  rewrite (proj2 (Nat.eqb_neq _ _)) by (apply Hfresh; by left).
  f_equal. apply IH. intros z Hz. apply Hfresh. by right.
Qed.

Lemma get_last t x :
  (forall y, y ∈ t -> pk y <> pk x) -> ORM.get pk (t ++ [x]) (pk x) = Some x.
Proof.
  intros Hfresh. unfold ORM.get. induction t as [|y t IH]; cbn.
  - by rewrite Nat.eqb_refl.
  - rewrite (proj2 (Nat.eqb_neq _ _)) by (apply Hfresh; by left).
    apply IH. intros z Hz. apply Hfresh. by right.
Qed.

Lemma filter_split_length (f g : Row -> bool) t :
  (forall x, f x = true -> g x = true) ->
  length (List.filter g t) =
    (length (List.filter g (List.filter (fun x => negb (f x)) t))
     + length (List.filter f t))%nat.
Proof.
  intros Hfg. induction t as [|x t IH]; [done|]. cbn [List.filter].
  destruct (f x) eqn:Hf; cbn [negb List.filter].
  - rewrite (Hfg x Hf). cbn [length]. lia.
  - destruct (g x); cbn [length]; lia.
Qed.

End FreshKeys.

Section JoinAndLeave.

Import FitnessSessions SessionViews.

Implicit Types (db : DB) (s : Session) (r : JoinRequestQueue).

(** The participant row of [user] in [s]. *)
Definition participation s (user : nat) : SessionParticipant :=
  {| participant_session := session_id s; participant_user := user |}.

Lemma join_session_run db sid s user now :
  get_session db sid = Val s ->
  (forall r, r ∈ join_requests db -> request_session r = sid -> processed r = true) ->
  has_user_joined db s user = false ->
  exists db',
    join_session db sid user now =
      (Redirect (if is_full db s then SessionFull else Joined), db') /\
    sessions db' = sessions db /\
    participants db' =
      (if is_full db s then participants db
       else participants db ++ [participation s user]) /\
    join_requests db' =
      join_requests db ++
      [{| request_id := next_request_id (join_requests db);
          request_session := sid; request_user := user; timestamp := now;
          processed := true; success := negb (is_full db s) |}] /\
    has_user_joined db' s user = negb (is_full db s) /\
    (forall r, r ∈ join_requests db' -> request_session r = sid -> processed r = true).
Proof.
  intros Hget Hnone Hjoined.
  pose proof (get_session_id db sid s Hget) as Hsid.
  unfold join_session. rewrite Hget, Hjoined, Hsid.
  set (r := {| request_id := next_request_id (join_requests db);
               request_session := sid; request_user := user; timestamp := now;
               processed := false; success := false |}).
  set (db1 := set_join_requests db (join_requests db ++ [r])).
  assert (forall y, y ∈ join_requests db -> request_id y <> request_id r) as Hfresh.
  { intros y Hy. pose proof (next_key_fresh request_id _ y Hy).
    cbn [request_id r]. unfold next_request_id. lia. }
  assert (pending_requests db1 s = [r]) as Hpend.
  { unfold pending_requests. cbn [join_requests db1 set_join_requests].
    rewrite List.filter_app, filter_none.
    - cbn [app List.filter]. unfold is_pending_for at 1.
      cbn [request_session processed r]. by rewrite Hsid, Nat.eqb_refl.
    - intros y Hy. unfold is_pending_for. rewrite Hsid.
      destruct (Nat.eqb (request_session y) sid) eqn:Hs; [|done].
      apply Nat.eqb_eq in Hs. by rewrite (Hnone y Hy Hs). }
  rewrite (process_join_queue_admit_all db1 sid s) by done.
  rewrite Hpend. cbn [admit_all].
  change (get_current_participants_count db1 s)
    with (get_current_participants_count db s).
  unfold is_full. destruct (capacity s <=? get_current_participants_count db s) eqn:Hfull.
  - rewrite (proj2 (Z.ltb_ge _ _)) by lia.
    unfold save_request. cbn [join_requests db1 set_join_requests].
    rewrite (save_last request_id _ r (set_outcome r true false) Hfresh eq_refl).
    pose proof (get_last request_id _ (set_outcome r true false) Hfresh) as Hg.
    change (request_id (set_outcome r true false)) with (request_id r) in Hg.
    rewrite Hg.
    cbn [success set_outcome negb]. eexists. split_and!; [done..| |].
    + done.
    + cbn [join_requests]. intros y [Hy|Hy%list_elem_of_singleton]%elem_of_app;
        [by apply Hnone|by subst].
  - rewrite (proj2 (Z.ltb_lt _ _)) by lia.
    change (has_user_joined db1 s (request_user r)) with (has_user_joined db s user)
      || (unfold create_participant;
          change (has_user_joined db1 s (request_user r))
            with (has_user_joined db s user)).
    rewrite Hjoined. cbn [admit_all].
    unfold save_request. cbn [join_requests db1 set_join_requests set_participants].
    rewrite (save_last request_id _ r (set_outcome r true true) Hfresh eq_refl).
    pose proof (get_last request_id _ (set_outcome r true true) Hfresh) as Hg.
    change (request_id (set_outcome r true true)) with (request_id r) in Hg.
    rewrite Hg.
    cbn [success set_outcome negb participants db1 set_join_requests request_user r].
    eexists. split_and!; [done..| |].
    + unfold has_user_joined.
      cbn [participants set_join_requests set_participants].
      rewrite existsb_app. cbn [existsb participant_session participant_user].
      by rewrite !Nat.eqb_refl, orb_true_r.
    + cbn [join_requests]. intros y [Hy|Hy%list_elem_of_singleton]%elem_of_app;
        [by apply Hnone|by subst].
Qed.

Lemma is_participation_eq s user p :
  is_participation s user p = true <-> p = participation s user.
Proof.
  unfold is_participation, participation. rewrite andb_true_iff, !Nat.eqb_eq.
  destruct p as [ps pu]. cbn. split; [by intros [-> ->]|by intros [= -> ->]].
Qed.

Lemma has_user_joined_filter db s user :
  has_user_joined db s user =
    negb (len (List.filter (is_participation s user) (participants db)) =? 0).
Proof.
  unfold has_user_joined. fold (is_participation s user).
  induction (participants db) as [|p ps IH]; [done|]. cbn [existsb List.filter].
  destruct (is_participation s user p); [|done].
  cbn [orb]. symmetry. apply negb_true_iff, Z.eqb_neq. unfold len. cbn [length]. lia.
Qed.

Lemma filter_participation_unique db s user :
  NoDup (participants db) ->
  (length (List.filter (is_participation s user) (participants db)) <= 1)%nat.
Proof.
  intros Hnd.
  assert (NoDup (List.filter (is_participation s user) (participants db))) as Hf
    by by apply NoDup_ListNoDup, List.NoDup_filter, NoDup_ListNoDup.
  assert (forall p, p ∈ List.filter (is_participation s user) (participants db) ->
                    p = participation s user) as Hall.
  { intros p [_ Hp]%list_elem_of_In%filter_In. by apply is_participation_eq. }
  destruct (List.filter _ _) as [|p1 [|p2 l]]; cbn [length]; [lia..|].
  exfalso. apply NoDup_cons in Hf as [Hp1 _]. apply Hp1.
  rewrite (Hall p1) by by left. rewrite (Hall p2) by (right; by left). by left.
Qed.

(** [join_session] when requests are filed one after the other, so that
    none is pending for the session: a user who has not joined gets one
    new request row, already processed; with room in the session the user
    becomes its newest participant and is told so, in a full session
    nothing changes but the request and the user is told it is full; and
    again no request is pending for the session. *)
Theorem join_session_one_by_one db sid s user now :
  get_session db sid = Val s ->
  (forall r, r ∈ join_requests db -> request_session r = sid -> processed r = true) ->
  has_user_joined db s user = false ->
  exists db',
    join_session db sid user now =
      (Redirect (if is_full db s then SessionFull else Joined), db') /\
    sessions db' = sessions db /\
    participants db' =
      (if is_full db s then participants db
       else participants db ++ [participation s user]) /\
    join_requests db' =
      join_requests db ++
      [{| request_id := next_request_id (join_requests db);
          request_session := sid; request_user := user; timestamp := now;
          processed := true; success := negb (is_full db s) |}] /\
    has_user_joined db' s user = negb (is_full db s) /\
    (forall r, r ∈ join_requests db' -> request_session r = sid -> processed r = true).
Proof. apply join_session_run. Qed.

Lemma leave_session_run db sid s user :
  get_session db sid = Val s ->
  NoDup (participants db) ->
  exists db',
    leave_session db sid user =
      (Redirect (if has_user_joined db s user then HasLeft else NotParticipant),
       db') /\
    sessions db' = sessions db /\ join_requests db' = join_requests db /\
    has_user_joined db' s user = false /\
    get_current_participants_count db' s =
      get_current_participants_count db s
      - (if has_user_joined db s user then 1 else 0) /\
    (forall p, p ∈ participants db' <->
               p ∈ participants db /\ p <> participation s user) /\
    (has_user_joined db s user = false -> db' = db).
Proof.
  intros Hget Hnd. unfold leave_session. rewrite Hget.
  pose proof (filter_participation_unique db s user Hnd) as Hle.
  rewrite (has_user_joined_filter db s user).
  destruct (List.filter (is_participation s user) (participants db))
    as [|p0 [|p1 l]] eqn:Hf; cbn [length] in Hle; [| |lia].
  - assert (participation s user ∉ participants db) as Hnot.
    { intros Hin. assert (participation s user ∈ []) as H; [|by apply elem_of_nil in H].
      rewrite <- Hf. apply list_elem_of_In, filter_In.
      split; [by apply list_elem_of_In|by apply is_participation_eq]. }
    exists db. change (len [] =? 0) with true. cbn [negb].
    split_and!; [done..| |lia| |done].
    + by rewrite has_user_joined_filter, Hf.
    + intros p. split; [|by intros [? _]]. intros Hp. split; [done|congruence].
  - eexists. rewrite (proj2 (Z.eqb_neq (len [p0]) 0)) by done. cbn [negb].
    split_and!; [done..| | | |done].
    + rewrite has_user_joined_filter. cbn [participants set_participants].
      rewrite filter_none; [done|].
      intros p [_ Hp]%list_elem_of_In%filter_In. by apply negb_true_iff.
    + unfold get_current_participants_count. cbn [participants set_participants].
      pose proof (filter_split_length (is_participation s user)
                    (is_participant_of (session_id s)) (participants db)) as Hsplit.
      rewrite Hf in Hsplit. cbn [length] in Hsplit. unfold len. rewrite Hsplit; [lia|].
      intros p [Hp _]%andb_true_iff. done.
    + intros p. cbn [participants set_participants].
      rewrite list_elem_of_In, filter_In, <- list_elem_of_In.
      rewrite negb_true_iff, <- not_true_iff_false, is_participation_eq. done.
Qed.

(** [leave_session] for a session that exists, no participant row
    occurring twice: a participant is told so and loses the row, and the
    session counts one participant less; anyone else is told they are no
    participant and nothing changes.  Afterwards the user has not joined,
    every other participant row is as before, and the requests are
    untouched. *)
Theorem leave_session_frees_place db sid s user :
  get_session db sid = Val s ->
  NoDup (participants db) ->
  exists db',
    leave_session db sid user =
      (Redirect (if has_user_joined db s user then HasLeft else NotParticipant),
       db') /\
    sessions db' = sessions db /\ join_requests db' = join_requests db /\
    has_user_joined db' s user = false /\
    get_current_participants_count db' s =
      get_current_participants_count db s
      - (if has_user_joined db s user then 1 else 0) /\
    (forall p, p ∈ participants db' <->
               p ∈ participants db /\ p <> participation s user) /\
    (has_user_joined db s user = false -> db' = db).
Proof. apply leave_session_run. Qed.

(** Joining and then leaving gives the place back: for a user who has not
    joined a session with room and without pending requests, [join_session]
    followed by [leave_session] ends with the participants exactly as they
    were, and the user may join again. *)
Theorem join_then_leave db sid s user now :
  get_session db sid = Val s ->
  NoDup (participants db) ->
  (forall r, r ∈ join_requests db -> request_session r = sid -> processed r = true) ->
  has_user_joined db s user = false ->
  is_full db s = false ->
  exists db1 db2,
    join_session db sid user now = (Redirect Joined, db1) /\
    leave_session db1 sid user = (Redirect HasLeft, db2) /\
    participants db2 = participants db /\
    has_user_joined db2 s user = false /\
    (forall r, r ∈ join_requests db2 -> request_session r = sid -> processed r = true).
Proof.
  intros Hget Hnd Hnone Hjoined Hroom.
  destruct (join_session_run db sid s user now Hget Hnone Hjoined)
    as (db1 & Hjoin & Hs1 & Hp1 & Hr1 & Hj1 & Hnone1).
  rewrite Hroom in *. cbn [negb] in *.
  assert (get_session db1 sid = Val s) as Hget1.
  { unfold get_session in *. by rewrite Hs1. }
  assert (participation s user ∉ participants db) as Hnot
    by by apply has_user_joined_false.
  assert (NoDup (participants db1)) as Hnd1.
  { rewrite Hp1. apply NoDup_app. split_and!; [done| |apply NoDup_singleton].
    by intros p Hp ->%list_elem_of_singleton. }
  destruct (leave_session_run db1 sid s user Hget1 Hnd1)
    as (db2 & Hleave & _ & Hr2 & Hj2 & _ & Hmem & _).
  rewrite Hj1 in Hleave. exists db1, db2. split_and!; [done..| |done|].
  - unfold leave_session in Hleave. rewrite Hget1 in Hleave.
    rewrite Hp1, List.filter_app in Hleave.
    rewrite (filter_none (is_participation s user) (participants db)) in Hleave.
    2:{ intros p Hp. apply not_true_iff_false. rewrite is_participation_eq.
        by intros ->. }
    cbn [app List.filter] in Hleave.
    rewrite (proj2 (is_participation_eq s user (participation s user)) eq_refl)
      in Hleave.
    injection Hleave as <-. cbn [participants set_participants].
    rewrite List.filter_app. cbn [List.filter].
    rewrite (proj2 (is_participation_eq s user (participation s user)) eq_refl).
    cbn [negb]. rewrite app_nil_r.
    apply forallb_filter_id, forallb_forall. intros p Hp%list_elem_of_In.
    apply negb_true_iff, not_true_iff_false. rewrite is_participation_eq.
    by intros ->.
  - by rewrite Hr2.
Qed.

End JoinAndLeave.

(** ** The other views of [trainer_bookings/views.py] *)

Module BookingViews.

Import TrainerBookings.

Inductive message : Set :=
| Cancelled                            (* success: "Booking cancelled" *)
| CannotCancel (s : status_choice)     (* warning: "Cannot cancel booking with status: ..." *)
| OnlyOwnBookings                      (* error: "You can only process your own bookings" *)
| Processed (processed_count : Z).     (* success: "Processed ... booking requests ..." *)

Inductive outcome : Set :=
| Http404
| Redirect (m : message)
| MultipleObjectsReturned.

(** [booking.status = 'cancelled']; [processed_at] is not written. *)
Definition set_cancelled (b : TrainerBooking) : TrainerBooking :=
  {| id := id b; client := client b; trainer := trainer b;
     requested_date := requested_date b; requested_time := requested_time b;
     priority_score := priority_score b; status := cancelled;
     created_at := created_at b; processed_at := processed_at b |}.

(** [cancel_booking]: [get_object_or_404(TrainerBooking, id=booking_id,
    client=request.user)], then the status test. *)
Definition cancel_booking (t : table) (booking_id user : nat) : outcome * table :=
  match List.filter (fun b => Nat.eqb (id b) booking_id && Nat.eqb (client b) user) t with
  | [] => (Http404, t)
  | [booking] =>
      if bool_decide (status booking = pending) then
        (Redirect Cancelled, ORM.save id t (set_cancelled booking))
      else (Redirect (CannotCancel (status booking)), t)
  | _ => (MultipleObjectsReturned, t)
  end.

(** [process_trainer_bookings] for a trainer that exists; [user] is the
    user who asks. *)
Definition process_trainer_bookings (clock : Z -> Z) (t : table)
    (user trainer_id : nat) : outcome * table :=
  if negb (Nat.eqb user trainer_id) then (Redirect OnlyOwnBookings, t)
  else
    let '(processed_count, t') := process_booking_queue clock t trainer_id in
    (Redirect (Processed processed_count), t').

(** The context [view_priority_queue] renders for a trainer that exists:
    [bookings_ordered], built by [enumerate(pending_bookings, start=1)],
    and [total_pending]. *)
Definition view_priority_queue (t : table) (trainer_id : nat)
  : list (TrainerBooking * Z) * Z :=
  let bookings_ordered :=
    fst (foldl (fun '(acc, position) booking =>
                  (acc ++ [(booking, position)], position + 1))
               ([], 1) (pending_bookings t trainer_id)) in
  (bookings_ordered, len bookings_ordered).

End BookingViews.

Section SchedulingFrame.

Import TrainerBookings BookingViews.

Variable clock : Z -> Z.

Implicit Types (t cur : list TrainerBooking) (b x y obj : TrainerBooking)
  (seen rest pend objs : list TrainerBooking).

Lemma pass_table t trainer_id :
  (process_booking_queue clock t trainer_id).2 =
    foldl (ORM.save id) t (decided clock [] (pending_bookings t trainer_id)).
Proof. by rewrite process_booking_queue_eq. Qed.

Lemma elem_of_decided_lookup rest seen x :
  x ∈ decided clock seen rest ->
  exists (i : nat) b,
    rest !! i = Some b /\
    x = set_status b (decision (seen ++ take i rest) b)
          (clock (len seen + Z.of_nat i)).
Proof.
  intros [i Hi]%list_elem_of_lookup_1.
  assert (length (decided clock seen rest) = length rest) as Hlen.
  { rewrite <- (length_map id (decided clock seen rest)), decided_ids.
    apply length_map. }
  destruct (lookup_lt_is_Some_2 rest i) as [b Hb].
  { apply lookup_lt_Some in Hi. lia. }
  exists i, b. split; [done|].
  rewrite (decided_lookup clock rest seen i b Hb) in Hi. by simplify_eq.
Qed.

Lemma no_pending_after_pass t trainer_id :
  pending_bookings (process_booking_queue clock t trainer_id).2 trainer_id = [].
Proof.
  unfold pending_bookings at 1. rewrite filter_none; [done|].
  intros x Hx. rewrite pass_table in Hx.
  apply elem_of_foldl_save in Hx as [Hx|[Hx Hid]].
  - unfold is_pending_for.
    apply elem_of_decided in Hx as [-> | ->]; by rewrite andb_false_r.
  - destruct (is_pending_for trainer_id x) eqn:Hp; [|done].
    exfalso. apply Hid. rewrite decided_ids.
    apply list_elem_of_In, in_map, list_elem_of_In.
    apply pending_bookings_elem. unfold is_pending_for in Hp.
    apply andb_true_iff in Hp as [Ht%Nat.eqb_eq Hs%bool_decide_eq_true].
    done.
Qed.

End SchedulingFrame.

Section SchedulingMore.

Import TrainerBookings BookingViews.

Implicit Types (t cur : list TrainerBooking) (b x y obj : TrainerBooking)
  (seen rest pend objs : list TrainerBooking).

(** Processing is idempotent: when the trainer triggers a pass and then,
    without a new booking in between, another one, the second reports zero
    bookings and leaves every row as the first left it; and a user who is
    not the trainer changes nothing. *)
Theorem processing_twice (clock1 clock2 : Z -> Z) t (user trainer_id : nat) :
  (user = trainer_id ->
   exists n t',
     process_trainer_bookings clock1 t user trainer_id = (Redirect (Processed n), t') /\
     n = len (List.filter (is_pending_for trainer_id) t) /\
     process_trainer_bookings clock2 t' user trainer_id = (Redirect (Processed 0), t')) /\
  (user <> trainer_id ->
   process_trainer_bookings clock1 t user trainer_id = (Redirect OnlyOwnBookings, t)).
Proof.
  split.
  - intros ->. unfold process_trainer_bookings. rewrite Nat.eqb_refl. cbn [negb].
    pose proof (no_pending_after_pass clock1 t trainer_id) as Hnone.
    destruct (process_booking_queue clock1 t trainer_id) as [n t'] eqn:Hrun.
    cbn [snd] in Hnone. exists n, t'. split_and!; [done| |].
    + rewrite process_booking_queue_eq in Hrun. injection Hrun as <- _.
      unfold len. f_equal. apply Permutation_length, order_by_Permutation.
    + unfold process_booking_queue. by rewrite Hnone.
  - intros Hne. unfold process_trainer_bookings.
    by rewrite (proj2 (Nat.eqb_neq _ _) Hne).
Qed.

End SchedulingMore.

Section SchedulingInvariants.

Import TrainerBookings BookingViews.

Variable clock : Z -> Z.

Implicit Types (t cur : list TrainerBooking) (b x y obj : TrainerBooking)
  (seen rest pend objs : list TrainerBooking).

(** [b'] is the request [b]: everything the client and the system recorded
    when it was filed is the same. *)
Definition same_request b b' : Prop :=
  id b' = id b /\ client b' = client b /\ trainer b' = trainer b /\
  requested_date b' = requested_date b /\ requested_time b' = requested_time b /\
  priority_score b' = priority_score b /\ created_at b' = created_at b.

(** What a pass for [trainer_id] may turn the row [b] into. *)
Definition resolved (trainer_id : nat) b b' : Prop :=
  same_request b b' /\
  (if is_pending_for trainer_id b
   then (status b' = confirmed \/ status b' = rejected) /\ is_Some (processed_at b')
   else b' = b).

Lemma resolved_refl_or_pending trainer_id b : 
  is_pending_for trainer_id b = false -> resolved trainer_id b b.
Proof. intros Hp. unfold resolved, same_request. by rewrite Hp. Qed.

Lemma resolved_set_status trainer_id b st now :
  is_pending_for trainer_id b = true -> st = confirmed \/ st = rejected ->
  resolved trainer_id b (set_status b st now).
Proof.
  intros Hp Hst. unfold resolved, same_request. rewrite Hp. cbn.
  split_and!; [done..|by eexists].
Qed.

Lemma Forall2_save_resolved trainer_id t cur b st now :
  NoDup (map id t) -> b ∈ t ->
  is_pending_for trainer_id b = true -> st = confirmed \/ st = rejected ->
  Forall2 (fun x y => id y = id x /\ (y = x \/ resolved trainer_id x y)) t cur ->
  Forall2 (fun x y => id y = id x /\ (y = x \/ resolved trainer_id x y)) t
    (ORM.save id cur (set_status b st now)).
Proof.
  intros Hnd Hb Hp Hst HF. unfold ORM.save.
  assert (existsb (fun x => Nat.eqb (id x) (id (set_status b st now))) cur = true)
    as ->.
  { apply list_elem_of_lookup_1 in Hb as [i Hi].
    destruct (Forall2_lookup_l _ _ _ _ _ HF Hi) as (y & Hy & Hid & _).
    apply existsb_exists. exists y.
    split; [by eapply list_elem_of_In, list_elem_of_lookup_2|].
    apply Nat.eqb_eq. by rewrite Hid. }
  change (map ?f cur) with (f <$> cur). apply Forall2_fmap_r.
  assert (forall x, x ∈ t -> id x = id b -> x = b) as Huniq.
  { intros x [i Hi]%list_elem_of_lookup_1 Hid.
    apply list_elem_of_lookup_1 in Hb as [j Hj].
    pose proof (NoDup_map_lookup id t i j x b Hnd Hi Hj Hid) as ->. congruence. }
  revert Huniq. clear Hb Hnd.
  induction HF as [|x y t' cur' [Hid Hxy] HF IH]; intros Huniq; [constructor|].
  constructor; [|apply IH; intros z Hz; apply Huniq; by right].
  unfold compose. cbn [id set_status].
  destruct (Nat.eqb (id y) (id b)) eqn:Hcmp; [|done].
  apply Nat.eqb_eq in Hcmp.
  assert (x = b) as -> by (apply Huniq; [by left|congruence]).
  split; [done|]. right. by apply resolved_set_status.
Qed.

Lemma Forall2_foldl_save_resolved trainer_id t seen rest : forall cur,
  NoDup (map id t) ->
  (forall b, b ∈ rest -> b ∈ t /\ is_pending_for trainer_id b = true) ->
  Forall2 (fun x y => id y = id x /\ (y = x \/ resolved trainer_id x y)) t cur ->
  Forall2 (fun x y => id y = id x /\ (y = x \/ resolved trainer_id x y)) t
    (foldl (ORM.save id) cur (decided clock seen rest)).
Proof.
  revert seen. induction rest as [|b rest IH]; intros seen cur Hnd Hrest HF; [done|].
  cbn [decided foldl]. apply IH; [done|intros b' Hb'; apply Hrest; by right|].
  destruct (Hrest b) as [Hb Hp]; [by left|].
  apply Forall2_save_resolved; [done..| |done].
  unfold decision. destruct (existsb _ _); auto.
Qed.

(** A pass neither adds nor removes nor reorders rows, and it rewrites
    nothing but the status and the processing time of the bookings that
    were pending for the trainer: each of those keeps its key, client,
    trainer, date, time, score and creation time and ends confirmed or
    rejected with a processing time; every other row, be it another
    trainer's or already confirmed, rejected, completed or cancelled, is
    exactly as it was. *)
Theorem pass_touches_pending_only t trainer_id :
  NoDup (map id t) ->
  Forall2 (resolved trainer_id) t (process_booking_queue clock t trainer_id).2 /\
  map id (process_booking_queue clock t trainer_id).2 = map id t.
Proof.
  intros Hnd.
  assert (Forall2 (fun x y => id y = id x /\ (y = x \/ resolved trainer_id x y)) t
            (process_booking_queue clock t trainer_id).2) as HF.
  { rewrite pass_table. apply Forall2_foldl_save_resolved; [done| |].
    - intros b [Hb [Ht Hs]]%pending_bookings_elem. split; [done|].
      unfold is_pending_for. by rewrite Ht, Hs, Nat.eqb_refl.
    - apply Forall2_same_length_lookup_2; [done|].
      intros i x y Hx Hy. simplify_eq. auto. }
  split.
  - apply Forall2_same_length_lookup_2; [by eapply Forall2_length|].
    intros i x y Hx Hy.
    destruct (Forall2_lookup_lr _ _ _ _ _ _ HF Hx Hy) as [Hid [->|Hr]]; [|done].
    apply resolved_refl_or_pending.
    apply list_elem_of_lookup_2 in Hy. rewrite pass_table in Hy.
    apply elem_of_foldl_save in Hy as [Hy|[Hy Hnew]].
    + unfold is_pending_for.
      apply elem_of_decided in Hy as [-> | ->]; by rewrite andb_false_r.
    + destruct (is_pending_for trainer_id x) eqn:Hp; [|done].
      exfalso. apply Hnew. rewrite decided_ids.
      apply list_elem_of_In, in_map, list_elem_of_In, pending_bookings_elem.
      unfold is_pending_for in Hp.
      apply andb_true_iff in Hp as [Ht%Nat.eqb_eq Hs%bool_decide_eq_true]. done.
  - symmetry. change (map id ?l) with (id <$> l).
    apply list_eq_Forall2, Forall2_fmap.
    eapply Forall2_impl; [exact HF|]. by intros x y [-> _].
Qed.

End SchedulingInvariants.

Section SchedulingQueue.

Import TrainerBookings BookingViews.

Variable clock : Z -> Z.

Implicit Types (t cur : list TrainerBooking) (b x y obj : TrainerBooking)
  (seen rest pend objs : list TrainerBooking).

(** On a trainer without a confirmed booking one pass never books a slot
    twice: of the trainer's rows it leaves confirmed, no two distinct ones
    ask for the same date and time. *)
Theorem first_pass_books_each_slot_once t trainer_id :
  NoDup (map id t) ->
  (forall b, b ∈ t -> trainer b = trainer_id -> status b <> confirmed) ->
  forall x y,
    x ∈ (process_booking_queue clock t trainer_id).2 ->
    y ∈ (process_booking_queue clock t trainer_id).2 ->
    trainer x = trainer_id -> trainer y = trainer_id ->
    status x = confirmed -> status y = confirmed ->
    same_slot x y = true -> x = y.
Proof.
  intros Hnd Hnone x y Hx Hy Htx Hty Hsx Hsy Hslot.
  set (pend := pending_bookings t trainer_id).
  assert (forall z, z ∈ (process_booking_queue clock t trainer_id).2 ->
            trainer z = trainer_id -> status z = confirmed ->
            exists (i : nat) b, pend !! i = Some b /\
              z = set_status b confirmed (clock (Z.of_nat i)) /\
              existsb (same_slot b) (take i pend) = false) as Hshape.
  { intros z Hz Htz Hsz. rewrite pass_table in Hz.
    apply elem_of_foldl_save in Hz as [Hz|[Hz _]];
      [|by destruct (Hnone z Hz Htz)].
    apply elem_of_decided_lookup in Hz as (i & b & Hb & ->).
    rewrite app_nil_l in *. change (len []) with 0 in *. rewrite Z.add_0_l in *.
    exists i, b. cbn [status set_status] in Hsz. unfold decision in *.
    fold pend in Hsz, Htz, Hb |- *.
    destruct (existsb (same_slot b) (take i pend)); [done|]. done. }
  destruct (Hshape x Hx Htx Hsx) as (i & b & Hb & -> & Hbi).
  destruct (Hshape y Hy Hty Hsy) as (j & b' & Hb' & -> & Hbj).
  change (same_slot b b' = true) in Hslot.
  destruct (decide (i = j)) as [->|Hne]; [by simplify_eq|]. exfalso.
  destruct (decide (i < j)%nat).
  - rewrite (existsb_same_slot_take pend j i b' b) in Hbj; [done|lia|done|].
    by rewrite same_slot_sym.
  - rewrite (existsb_same_slot_take pend i j b b') in Hbi; [done|lia|done..].
Qed.

(** The positions [enumerate(..., start=1)] hands out, from [position]. *)
Fixpoint numbered (position : Z) pend : list (TrainerBooking * Z) :=
  match pend with
  | [] => []
  | b :: pend' => (b, position) :: numbered (position + 1) pend'
  end.

Lemma enumerate_numbered pend : forall acc position,
  (foldl (fun '(acc, position) booking =>
            (acc ++ [(booking, position)], position + 1))
         (acc, position) pend).1 = acc ++ numbered position pend.
Proof.
  induction pend as [|b pend IH]; intros acc position; cbn [foldl numbered].
  - by rewrite app_nil_r.
  - rewrite IH, <- app_assoc. done.
Qed.

Lemma numbered_lookup pend : forall position (i : nat),
  numbered position pend !! i = (fun b => (b, position + Z.of_nat i)) <$> pend !! i.
Proof.
  induction pend as [|b pend IH]; intros position i; [done|].
  destruct i as [|i]; cbn.
  - by rewrite Z.add_0_r.
  - rewrite IH. destruct (pend !! i); cbn; [|done]. do 2 f_equal. lia.
Qed.

Lemma numbered_fst pend : forall position, map fst (numbered position pend) = pend.
Proof. induction pend as [|b pend IH]; intros p; cbn; [done|by rewrite IH]. Qed.

Lemma numbered_length pend : forall position,
  length (numbered position pend) = length pend.
Proof. induction pend as [|b pend IH]; intros p; cbn; [done|by rewrite IH]. Qed.

(** The priority queue a trainer is shown lists every pending booking of
    the trainer once, numbered 1, 2, ... in ascending order of score, and
    [total_pending] counts them.  It is the order of the next pass: the
    booking at position [p] is the [p]-th to be processed, and the booking
    at position 1 is always confirmed. *)
Theorem priority_queue_is_processing_order t trainer_id :
  NoDup (map id t) ->
  let bookings_ordered := (view_priority_queue t trainer_id).1 in
  let total_pending := (view_priority_queue t trainer_id).2 in
  let t' := (process_booking_queue clock t trainer_id).2 in
  total_pending = len (List.filter (is_pending_for trainer_id) t) /\
  map fst bookings_ordered ≡ₚ List.filter (is_pending_for trainer_id) t /\
  (forall (i : nat) b position,
     bookings_ordered !! i = Some (b, position) ->
     position = Z.of_nat i + 1 /\
     processed_at <$> ORM.get id t' (id b) = Some (Some (clock (position - 1))) /\
     (position = 1 -> final_status t' b = Some confirmed)) /\
  (forall (i j : nat) b b' p p',
     bookings_ordered !! i = Some (b, p) -> bookings_ordered !! j = Some (b', p') ->
     p < p' -> priority_score b <= priority_score b').
Proof.
  intros Hnd bookings_ordered total_pending t'.
  set (pend := pending_bookings t trainer_id).
  assert (bookings_ordered = numbered 1 pend) as Hord.
  { unfold bookings_ordered, view_priority_queue. cbn [fst].
    by rewrite enumerate_numbered. }
  assert (forall (i : nat) b position, bookings_ordered !! i = Some (b, position) ->
            pend !! i = Some b /\ position = 1 + Z.of_nat i) as Hlook.
  { intros i b position. rewrite Hord, numbered_lookup.
    destruct (pend !! i); cbn; [|done]. by intros [= -> ->]. }
  split_and!.
  - unfold total_pending, view_priority_queue. cbn [snd].
    rewrite enumerate_numbered, app_nil_l. unfold len. rewrite numbered_length.
    f_equal. apply Permutation_length, order_by_Permutation.
  - rewrite Hord, numbered_fst. apply order_by_Permutation.
  - intros i b position [Hb ->]%Hlook.
    assert (NoDup (map id pend)) as Hids by by apply pending_bookings_ids.
    pose proof (get_decided clock t pend i b Hids Hb) as Hget.
    fold pend in Hget. unfold t', final_status. rewrite pass_table. fold pend.
    rewrite Hget. cbn [fmap option_fmap option_map processed_at status set_status].
    split_and!; [lia|do 3 f_equal; lia|].
    intros Hi. assert (i = 0)%nat as -> by lia. by rewrite take_0.
  - intros i j b b' p p' [Hb ->]%Hlook [Hb' ->]%Hlook Hlt.
    pose proof (pending_bookings_sorted t trainer_id) as Hs.
    apply (StronglySorted_lookup _ _ i j b b' Hs); [lia|done..].
Qed.

End SchedulingQueue.

Section KeyedRows.

Context {Row : Type} (pk : Row -> nat).
Implicit Types (t : list Row) (x obj : Row).

Lemma filter_unique (f : Row -> bool) t x :
  NoDup (map pk t) -> x ∈ t -> f x = true ->
  (forall y, f y = true -> pk y = pk x) ->
  List.filter f t = [x].
Proof.
  intros Hnd Hx Hfx Hf. induction t as [|y t IH]; [by apply elem_of_nil in Hx|].
  cbn [map] in Hnd. apply NoDup_cons in Hnd as [Hy Hnd]. cbn [List.filter].
  apply elem_of_cons in Hx as [<-|Hx].
  - rewrite Hfx. f_equal. apply filter_none. intros z Hz.
    destruct (f z) eqn:Hfz; [|done]. exfalso. apply Hy.
    rewrite <- (Hf z Hfz). apply list_elem_of_In, in_map, list_elem_of_In, Hz.
  - destruct (f y) eqn:Hfy; [|by apply IH].
    exfalso. apply Hy. rewrite (Hf y Hfy).
    apply list_elem_of_In, in_map, list_elem_of_In, Hx.
Qed.

Lemma save_ids t x obj :
  x ∈ t -> pk obj = pk x -> map pk (ORM.save pk t obj) = map pk t.
Proof.
  intros Hx Hpk. unfold ORM.save.
  assert (existsb (fun y => Nat.eqb (pk y) (pk obj)) t = true) as ->.
  { apply existsb_exists. exists x. split; [by apply list_elem_of_In|].
    apply Nat.eqb_eq. congruence. }
  rewrite map_map. apply map_ext. intros y.
  destruct (Nat.eqb (pk y) (pk obj)) eqn:Hcmp; [|done].
  apply Nat.eqb_eq in Hcmp. congruence.
Qed.

End KeyedRows.

Section CancelAndCreate.

Import TrainerBookings BookingViews.

Variable clock : Z -> Z.

Implicit Types (t : list TrainerBooking) (b x y : TrainerBooking).

(** Cancelling is final.  The client of a pending booking can cancel it:
    the row becomes cancelled and no other row changes.  From then on no
    trainer's queue lists the booking, no pass touches it, and cancelling
    it again is refused; for anyone but the client the booking is not
    found and nothing changes. *)
Theorem cancelled_stays_cancelled t b :
  NoDup (map id t) -> b ∈ t -> status b = pending ->
  exists t1,
    cancel_booking t (id b) (client b) = (Redirect Cancelled, t1) /\
    ORM.get id t1 (id b) = Some (set_cancelled b) /\
    (forall n, n <> id b -> ORM.get id t1 n = ORM.get id t n) /\
    map id t1 = map id t /\
    (forall trainer_id,
       (forall x, x ∈ pending_bookings t1 trainer_id -> id x <> id b) /\
       ORM.get id (process_booking_queue clock t1 trainer_id).2 (id b)
         = Some (set_cancelled b)) /\
    cancel_booking t1 (id b) (client b) = (Redirect (CannotCancel cancelled), t1) /\
    (forall user, user <> client b -> cancel_booking t (id b) user = (Http404, t)).
Proof.
  intros Hnd Hb Hpending.
  set (f user := fun x => Nat.eqb (id x) (id b) && Nat.eqb (client x) user).
  assert (forall user y, f user y = true -> id y = id b) as Hf.
  { intros user y [Hy _]%andb_true_iff. by apply Nat.eqb_eq. }
  assert (List.filter (f (client b)) t = [b]) as Hfilter.
  { apply (filter_unique id); [done..| |apply Hf].
    unfold f. by rewrite !Nat.eqb_refl. }
  set (t1 := ORM.save id t (set_cancelled b)).
  assert (map id t1 = map id t) as Hids by by apply (save_ids id t b).
  assert (ORM.get id t1 (id b) = Some (set_cancelled b)) as Hget
    by apply (get_save_eq id t (set_cancelled b)).
  assert (forall x, x ∈ t1 -> id x = id b -> x = set_cancelled b) as Honly.
  { intros x Hx Hid. by apply (elem_of_save id) in Hx as [->|[_ Hne]]. }
  exists t1. split_and!.
  - unfold cancel_booking. fold (f (client b)). rewrite Hfilter.
    by rewrite bool_decide_eq_true_2.
  - done.
  - intros n Hn. by apply (get_save_ne id t (set_cancelled b)).
  - done.
  - intros trainer_id.
    assert (forall x, x ∈ pending_bookings t1 trainer_id -> id x <> id b) as Hnot.
    { intros x [Hx [_ Hs]]%pending_bookings_elem Hid.
      rewrite (Honly x Hx Hid) in Hs. done. }
    split; [done|]. rewrite pass_table, get_foldl_save_other; [done|].
    rewrite decided_ids.
    intros (x & Hid & Hx%list_elem_of_In)%list_elem_of_In%in_map_iff.
    by apply (Hnot x).
  - unfold cancel_booking. fold (f (client b)).
    rewrite (filter_unique id (f (client b)) t1 (set_cancelled b)).
    + by rewrite bool_decide_eq_false_2.
    + by rewrite Hids.
    + by apply get_Some in Hget as [? _].
    + unfold f. cbn [id client set_cancelled]. by rewrite !Nat.eqb_refl.
    + apply Hf.
  - intros user Hne. unfold cancel_booking. fold (f user).
    rewrite filter_none; [done|]. intros x Hx. unfold f.
    destruct (Nat.eqb (id x) (id b)) eqn:Hid; [|done]. cbn [andb].
    apply Nat.eqb_eq in Hid.
    assert (x = b) as ->.
    { apply list_elem_of_lookup_1 in Hx as [i Hi].
      apply list_elem_of_lookup_1 in Hb as [j Hj].
      pose proof (NoDup_map_lookup id t i j x b Hnd Hi Hj Hid) as ->. congruence. }
    apply Nat.eqb_neq. congruence.
Qed.


End CancelAndCreate.

(** ** Further worked examples *)

Open Scope string_scope.

Lemma get_min_is_next_extracted_witness :
  exists m h',
    MinHeap.get_min example_heap = Val (Some m) /\
    MinHeap.extract_min example_heap = Val (Some m, h') /\
    (forall x, x ∈ example_heap -> MinHeap.score m <= MinHeap.score x) /\
    MinHeap.size h' = MinHeap.size example_heap - 1.
Proof.
  apply (get_min_is_next_extracted example_heap);
    [exact example_heap_reachable|reflexivity].
Defined.

(** The item appended last, (1,"w"), scores below its parent (2,"y"). *)
Lemma heapify_up_step_spec_witness :
  exists s,
    MinHeap.heapify_up_step [(2, "y"); (5, "x"); (8, "z"); (1, "w")] (Z.of_nat 3)
      = Val s /\
    match s with
    | Break (h', index') =>
        h' = [(2, "y"); (5, "x"); (8, "z"); (1, "w")] /\ index' = Z.of_nat 3 /\
        forall p y, child_of p 3 ->
          [(2, "y"); (5, "x"); (8, "z"); (1, "w")] !! p = Some y ->
          MinHeap.score y <= MinHeap.score (1, "w")
    | Continue (h', index') =>
        exists p y,
          index' = Z.of_nat p /\ index' = MinHeap.get_parent_index (Z.of_nat 3) /\
          child_of p 3 /\
          [(2, "y"); (5, "x"); (8, "z"); (1, "w")] !! p = Some y /\
          MinHeap.score (1, "w") < MinHeap.score y /\
          h' = swapped [(2, "y"); (5, "x"); (8, "z"); (1, "w")] 3 p (1, "w") y
    end.
Proof.
  apply (heapify_up_step_spec [(2, "y"); (5, "x"); (8, "z"); (1, "w")] 3 (1, "w")).
  reflexivity.
Defined.

Close Scope string_scope.

(** A stack of three that is full. *)
Definition full_stack : @RecentSessionsStack.stack nat :=
  {| RecentSessionsStack.items := [4; 5; 6]%nat; RecentSessionsStack.max_size := 3 |}.

Lemma push_pop_witness :
  exists s1 s2,
    RecentSessionsStack.push full_stack 7%nat = Val s1 /\
    RecentSessionsStack.pop s1 = Val (Some 7%nat, s2) /\
    RecentSessionsStack.peek s1 = Val (Some 7%nat) /\
    head (RecentSessionsStack.get_all s1) = Some 7%nat /\
    RecentSessionsStack.items s2 =
      (if RecentSessionsStack.max_size full_stack
          <? RecentSessionsStack.size full_stack + 1
       then drop 1 (RecentSessionsStack.items full_stack)
       else RecentSessionsStack.items full_stack).
Proof. apply (push_pop full_stack 7%nat). by vm_compute. Defined.

Example recent_sessions_example :
  RecentSessionsStack.recent_sessions_after_view [1; 2; 3; 4; 5]%nat 3%nat
  = Val [2; 3; 4; 5; 3]%nat.
Proof. reflexivity. Qed.

(** One place, taken; two requests wait. *)
Definition full_db : FitnessSessions.DB :=
  {| FitnessSessions.sessions :=
       [{| FitnessSessions.session_id := 1; FitnessSessions.capacity := 1 |}];
     FitnessSessions.participants :=
       [{| FitnessSessions.participant_session := 1;
           FitnessSessions.participant_user := 10 |}];
     FitnessSessions.join_requests :=
       [example_request 1 11 1; example_request 2 12 2] |}.

Lemma pass_on_full_session_witness :
  exists db',
    FitnessSessions.process_join_queue full_db 1 = (Val (), db') /\
    FitnessSessions.sessions db' = FitnessSessions.sessions full_db /\
    FitnessSessions.participants db' = FitnessSessions.participants full_db /\
    (forall n,
       ORM.get FitnessSessions.request_id (FitnessSessions.join_requests db') n =
       if decide (n = FitnessSessions.request_id (example_request 1 11 1))
       then Some (FitnessSessions.set_outcome (example_request 1 11 1) true false)
       else ORM.get FitnessSessions.request_id
              (FitnessSessions.join_requests full_db) n).
Proof.
  apply (pass_on_full_session full_db 1
           {| FitnessSessions.session_id := 1; FitnessSessions.capacity := 1 |}
           (example_request 1 11 1) [example_request 2 12 2]); reflexivity.
Defined.


(** Two places, nobody there, nothing filed. *)
Definition fresh_db : FitnessSessions.DB :=
  {| FitnessSessions.sessions := [example_session];
     FitnessSessions.participants := [];
     FitnessSessions.join_requests := [] |}.

Lemma join_session_one_by_one_witness :
  exists db',
    SessionViews.join_session fresh_db 1 10 7 =
      (SessionViews.Redirect
         (if FitnessSessions.is_full fresh_db example_session
          then SessionViews.SessionFull else SessionViews.Joined), db') /\
    FitnessSessions.sessions db' = FitnessSessions.sessions fresh_db /\
    FitnessSessions.participants db' =
      (if FitnessSessions.is_full fresh_db example_session
       then FitnessSessions.participants fresh_db
       else FitnessSessions.participants fresh_db
            ++ [participation example_session 10]) /\
    FitnessSessions.join_requests db' =
      FitnessSessions.join_requests fresh_db ++
      [{| FitnessSessions.request_id :=
            SessionViews.next_request_id (FitnessSessions.join_requests fresh_db);
          FitnessSessions.request_session := 1;
          FitnessSessions.request_user := 10; FitnessSessions.timestamp := 7;
          FitnessSessions.processed := true;
          FitnessSessions.success :=
            negb (FitnessSessions.is_full fresh_db example_session) |}] /\
    FitnessSessions.has_user_joined db' example_session 10 =
      negb (FitnessSessions.is_full fresh_db example_session) /\
    (forall r, r ∈ FitnessSessions.join_requests db' ->
       FitnessSessions.request_session r = 1%nat ->
       FitnessSessions.processed r = true).
Proof.
  apply (join_session_one_by_one fresh_db 1 example_session 10 7).
  - reflexivity.
  - intros r Hr. by apply elem_of_nil in Hr.
  - reflexivity.
Defined.

Lemma leave_session_frees_place_witness :
  exists db',
    SessionViews.leave_session full_db 1 10 =
      (SessionViews.Redirect SessionViews.HasLeft, db') /\
    FitnessSessions.has_user_joined db'
      {| FitnessSessions.session_id := 1; FitnessSessions.capacity := 1 |} 10 = false /\
    FitnessSessions.get_current_participants_count db'
      {| FitnessSessions.session_id := 1; FitnessSessions.capacity := 1 |} = 0.
Proof.
  destruct (leave_session_frees_place full_db 1
              {| FitnessSessions.session_id := 1; FitnessSessions.capacity := 1 |} 10)
    as (db' & Hrun & _ & _ & Hjoined & Hcount & _).
  - reflexivity.
  - apply NoDup_singleton.
  - exists db'. split_and!; [exact Hrun|exact Hjoined|exact Hcount].
Defined.

Lemma join_then_leave_witness :
  exists db1 db2,
    SessionViews.join_session fresh_db 1 10 7
      = (SessionViews.Redirect SessionViews.Joined, db1) /\
    SessionViews.leave_session db1 1 10
      = (SessionViews.Redirect SessionViews.HasLeft, db2) /\
    FitnessSessions.participants db2 = FitnessSessions.participants fresh_db /\
    FitnessSessions.has_user_joined db2 example_session 10 = false /\
    (forall r, r ∈ FitnessSessions.join_requests db2 ->
       FitnessSessions.request_session r = 1%nat ->
       FitnessSessions.processed r = true).
Proof.
  apply (join_then_leave fresh_db 1 example_session 10 7).
  - reflexivity.
  - apply NoDup_nil_2.
  - intros r Hr. by apply elem_of_nil in Hr.
  - reflexivity.
  - reflexivity.
Defined.

Lemma pass_touches_pending_only_witness :
  Forall2 (resolved 1) example_table
    (TrainerBookings.process_booking_queue example_clock example_table 1).2 /\
  map TrainerBookings.id
    (TrainerBookings.process_booking_queue example_clock example_table 1).2
  = map TrainerBookings.id example_table.
Proof. apply (pass_touches_pending_only example_clock example_table 1). compute_done. Defined.

Lemma first_pass_books_each_slot_once_witness :
  TrainerBookings.set_status (example_booking 1 7 19723 32400 100 1)
    TrainerBookings.confirmed 5000
  = TrainerBookings.set_status (example_booking 1 7 19723 32400 100 1)
      TrainerBookings.confirmed 5000.
Proof.
  apply (first_pass_books_each_slot_once example_clock example_table 1).
  - compute_done.
  - intros b Hb _. repeat (apply elem_of_cons in Hb as [->|Hb]; [done|]).
    by apply elem_of_nil in Hb.
  - by left.
  - by left.
  - reflexivity.
  - reflexivity.
  - reflexivity.
  - reflexivity.
  - reflexivity.
Defined.

Lemma priority_queue_is_processing_order_witness :
  (BookingViews.view_priority_queue example_table 1).2 = 3 /\
  map fst (BookingViews.view_priority_queue example_table 1).1
    ≡ₚ List.filter (TrainerBookings.is_pending_for 1) example_table.
Proof.
  destruct (priority_queue_is_processing_order example_clock example_table 1)
    as (Htotal & Hperm & _); [compute_done|].
  split; [exact Htotal|exact Hperm].
Defined.

Lemma cancelled_stays_cancelled_witness :
  exists t1,
    BookingViews.cancel_booking example_table 1 7
      = (BookingViews.Redirect BookingViews.Cancelled, t1) /\
    ORM.get TrainerBookings.id
      (TrainerBookings.process_booking_queue example_clock t1 1).2 1
    = Some (BookingViews.set_cancelled (example_booking 1 7 19723 32400 100 1)) /\
    BookingViews.cancel_booking t1 1 7
      = (BookingViews.Redirect (BookingViews.CannotCancel TrainerBookings.cancelled), t1).
Proof.
  destruct (cancelled_stays_cancelled example_clock example_table
              (example_booking 1 7 19723 32400 100 1))
    as (t1 & Hrun & _ & _ & _ & Hpass & Hagain & _).
  - compute_done.
  - by left.
  - reflexivity.
  - exists t1. split_and!; [exact Hrun|exact (proj2 (Hpass 1%nat))|exact Hagain].
Defined.


(** After the 09:00 booking with the lower score is cancelled, the other
    booking for 09:00 is confirmed. *)
Example cancel_frees_slot :
  let t1 := (BookingViews.cancel_booking example_table 1 7).2 in
  map (fun b => (TrainerBookings.id b, TrainerBookings.status b))
      (TrainerBookings.process_booking_queue example_clock t1 1).2
  = [ (1%nat, TrainerBookings.cancelled); (2%nat, TrainerBookings.confirmed);
      (3%nat, TrainerBookings.confirmed) ].
Proof. reflexivity. Qed.

(** ** [accounts/utils/hashing.py] and [accounts/utils/salt.py]

    A [str] is the list of its code points ([ord] of each character); the
    hexadecimal text that is returned is a list of characters. *)

Import Stdlib.Strings.Ascii.

Module NEA.

Definition hex_alphabet : list ascii := String.list_ascii_of_string "0123456789abcdef".

Definition hex_digit (d : Z) : ascii := nth (Z.to_nat d) hex_alphabet "0"%char.

(** The digits of [n >= 0] in base sixteen, most significant first, at
    most [fuel] of them. *)
Fixpoint hex_digits (fuel : nat) (n : Z) : list ascii :=
  match fuel with
  | O => []
  | S fuel' =>
      (if n <? 16 then [] else hex_digits fuel' (n / 16)) ++ [hex_digit (n mod 16)]
  end.

(** [format(n, 'x')] for [n >= 0]; a number has at most one digit per bit. *)
Definition hex (n : Z) : list ascii := hex_digits (S (Z.to_nat (Z.log2 n))) n.

Definition zero_pad (width : nat) (digits : list ascii) : list ascii :=
  replicate (width - length digits) "0"%char ++ digits.

(** [f"{n:08x}"]: zero padded to eight characters, the sign included. *)
Definition format_08x (n : Z) : list ascii :=
  if n <? 0 then "-"%char :: zero_pad 7 (hex (- n)) else zero_pad 8 (hex n).

(** The body of the loop of [hash_password] over [enumerate(combined)];
    the state is [(i, h1, h2)]. *)
Definition hash_step (st : Z * Z * Z) (val : Z) : Z * Z * Z :=
  let '(i, h1, h2) := st in
  let h1 := (h1 + val * (i + 1)) mod 1000000007 in
  let h2 := (h2 * 31 + val) mod 1000000009 in
  let h1 := if i mod 3 =? 0 then Z.lxor h1 h2 else h1 in
  let h2 := if i mod 5 =? 0 then Z.lxor h2 h1 else h2 in
  (i + 1, h1, h2).

(** [NEAHasher(salt).hash_password(password)] *)
Definition hash_password (salt password : list Z) : list ascii :=
  let combined := salt ++ password in
  let '(_, h1, h2) := foldl hash_step (0, 0, 1) combined in
  format_08x h1 ++ format_08x h2.

(** The body of the loop of [generate]. *)
Definition salt_step (st : Z * Z * Z) (v : Z) : Z * Z * Z :=
  let '(i, s1, s2) := st in
  let s1 := (s1 + v * (i + 7)) mod 1000000007 in
  let s2 := (s2 * 33 + v) mod 1000000009 in
  let s1 := if i mod 4 =? 0 then Z.lxor s1 s2 else s1 in
  let s2 := if i mod 6 =? 0 then Z.lxor s2 s1 else s2 in
  (i + 1, s1, s2).

(** [NEASaltGenerator(seed_text).generate()] *)
Definition generate (seed_text : list Z) : list ascii :=
  let '(_, s1, s2) := foldl salt_step (0, 0, 1) seed_text in
  format_08x s1 ++ format_08x s2 ++ format_08x (Z.lxor s1 s2)
  ++ format_08x ((s1 + s2) mod 2 ^ 32).

End NEA.

Section NEAFacts.

Import NEA.

Lemma lxor_below_pow2 (a b n : Z) :
  0 <= n -> 0 <= a < 2 ^ n -> 0 <= b < 2 ^ n -> 0 <= Z.lxor a b < 2 ^ n.
Proof.
  intros Hn Ha Hb.
  assert (0 <= Z.lxor a b) as Hnn by (apply Z.lxor_nonneg; lia).
  split; [done|].
  destruct (decide (Z.lxor a b = 0)) as [->|Hne]; [lia|].
  apply Z.log2_lt_pow2; [lia|].
  pose proof (Z.log2_lxor a b ltac:(lia) ltac:(lia)) as Hlog.
  assert (0 < n) as Hpos.
  { destruct (decide (n = 0)) as [->|]; [|lia].
    change (2 ^ 0) with 1 in Ha, Hb.
    assert (a = 0) as -> by lia. assert (b = 0) as -> by lia. done. }
  assert (Z.log2 a < n) as Hla.
  { destruct (decide (a = 0)) as [->|]; [by change (Z.log2 0) with 0|].
    apply Z.log2_lt_pow2; lia. }
  assert (Z.log2 b < n) as Hlb.
  { destruct (decide (b = 0)) as [->|]; [by change (Z.log2 0) with 0|].
    apply Z.log2_lt_pow2; lia. }
  lia.
Qed.

Definition is_hex_char (c : ascii) : Prop := c ∈ hex_alphabet.

Lemma hex_digit_is_hex d : 0 <= d < 16 -> is_hex_char (hex_digit d).
Proof.
  intros Hd. unfold is_hex_char, hex_digit.
  apply list_elem_of_In, nth_In. cbn. lia.
Qed.

Lemma hex_digits_is_hex fuel : forall n, Forall is_hex_char (hex_digits fuel n).
Proof.
  induction fuel as [|fuel IH]; intros n; cbn [hex_digits]; [constructor|].
  apply Forall_app. split.
  - destruct (n <? 16); [constructor|apply IH].
  - apply Forall_singleton, hex_digit_is_hex, Z.mod_pos_bound. lia.
Qed.

Lemma hex_digits_length fuel : forall (k : nat) n,
  (1 <= k)%nat -> 0 <= n < 16 ^ Z.of_nat k ->
  (length (hex_digits fuel n) <= k)%nat.
Proof.
  induction fuel as [|fuel IH]; intros k n Hk Hn; cbn [hex_digits length]; [lia|].
  rewrite length_app. cbn [length].
  destruct (n <? 16) eqn:Hcmp; cbn [length]; [lia|].
  apply Z.ltb_ge in Hcmp.
  destruct k as [|[|k]]; [lia|change (16 ^ Z.of_nat 1) with 16 in Hn; lia|].
  specialize (IH (S k) (n / 16) ltac:(lia)).
  assert (0 <= n / 16 < 16 ^ Z.of_nat (S k)); [|lia].
  split; [apply Z.div_pos; lia|].
  apply Z.div_lt_upper_bound; [lia|].
  replace (Z.of_nat (S (S k))) with (Z.of_nat (S k) + 1) in Hn by lia.
  rewrite Z.pow_add_r in Hn by lia. lia.
Qed.

(** A number that fits in 32 bits is written with exactly eight
    hexadecimal digits. *)
Lemma format_08x_32_bits n :
  0 <= n < 2 ^ 32 ->
  length (format_08x n) = 8%nat /\ Forall is_hex_char (format_08x n).
Proof.
  intros Hn. unfold format_08x. rewrite (proj2 (Z.ltb_ge _ _)) by lia.
  unfold zero_pad, hex.
  pose proof (hex_digits_length (S (Z.to_nat (Z.log2 n))) 8 n ltac:(lia)) as Hlen.
  change (16 ^ Z.of_nat 8) with (2 ^ 32) in Hlen. specialize (Hlen Hn).
  split.
  - rewrite length_app, length_replicate. lia.
  - apply Forall_app. split; [|apply hex_digits_is_hex].
    apply Forall_replicate. apply (hex_digit_is_hex 0). lia.
Qed.

Lemma hash_step_range st val :
  let '(_, h1, h2) := hash_step st val in
  0 <= h1 < 2 ^ 30 /\ 0 <= h2 < 2 ^ 30.
Proof.
  destruct st as [[i h1] h2]. unfold hash_step.
  pose proof (Z.mod_pos_bound (h1 + val * (i + 1)) 1000000007 ltac:(lia)) as H1.
  pose proof (Z.mod_pos_bound (h2 * 31 + val) 1000000009 ltac:(lia)) as H2.
  set (a := (h1 + val * (i + 1)) mod 1000000007) in *.
  set (b := (h2 * 31 + val) mod 1000000009) in *.
  assert (0 <= a < 2 ^ 30) as Ha by lia.
  assert (0 <= b < 2 ^ 30) as Hb by lia.
  assert (0 <= (if i mod 3 =? 0 then Z.lxor a b else a) < 2 ^ 30) as Ha'.
  { destruct (i mod 3 =? 0); [by apply lxor_below_pow2|done]. }
  split; [done|].
  destruct (i mod 5 =? 0); [by apply lxor_below_pow2|done].
Qed.

Lemma salt_step_range st v :
  let '(_, s1, s2) := salt_step st v in
  0 <= s1 < 2 ^ 30 /\ 0 <= s2 < 2 ^ 30.
Proof.
  destruct st as [[i s1] s2]. unfold salt_step.
  pose proof (Z.mod_pos_bound (s1 + v * (i + 7)) 1000000007 ltac:(lia)) as H1.
  pose proof (Z.mod_pos_bound (s2 * 33 + v) 1000000009 ltac:(lia)) as H2.
  set (a := (s1 + v * (i + 7)) mod 1000000007) in *.
  set (b := (s2 * 33 + v) mod 1000000009) in *.
  assert (0 <= a < 2 ^ 30) as Ha by lia.
  assert (0 <= b < 2 ^ 30) as Hb by lia.
  assert (0 <= (if i mod 4 =? 0 then Z.lxor a b else a) < 2 ^ 30) as Ha'.
  { destruct (i mod 4 =? 0); [by apply lxor_below_pow2|done]. }
  split; [done|].
  destruct (i mod 6 =? 0); [by apply lxor_below_pow2|done].
Qed.

Lemma foldl_range (step : Z * Z * Z -> Z -> Z * Z * Z) (l : list Z) :
  (forall st v, let '(_, a, b) := step st v in
                0 <= a < 2 ^ 30 /\ 0 <= b < 2 ^ 30) ->
  forall st, (let '(_, a, b) := st in 0 <= a < 2 ^ 30 /\ 0 <= b < 2 ^ 30) ->
  let '(_, a, b) := foldl step st l in 0 <= a < 2 ^ 30 /\ 0 <= b < 2 ^ 30.
Proof.
  intros Hstep. induction l as [|v l IH]; intros st Hst; [done|].
  cbn [foldl]. apply IH. apply Hstep.
Qed.

(** Whatever the salt and the password, also empty or with characters
    beyond ASCII, [hash_password] returns exactly sixteen characters, all
    of them lower-case hexadecimal digits: the two accumulators never
    reach [2^30], although the exclusive-or can lift them above the
    moduli. *)
Theorem hash_password_format (salt password : list Z) :
  length (hash_password salt password) = 16%nat /\
  Forall is_hex_char (hash_password salt password).
Proof.
  unfold hash_password.
  pose proof (foldl_range hash_step (salt ++ password) hash_step_range (0, 0, 1))
    as Hrange.
  destruct (foldl hash_step (0, 0, 1) (salt ++ password)) as [[i h1] h2].
  destruct Hrange as [H1 H2]; [lia|].
  destruct (format_08x_32_bits h1) as [Hl1 Hx1]; [lia|].
  destruct (format_08x_32_bits h2) as [Hl2 Hx2]; [lia|].
  split; [rewrite length_app; lia|by apply Forall_app].
Qed.

(** Whatever the seed text, [generate] returns exactly thirty-two
    characters, all of them lower-case hexadecimal digits. *)
Theorem generate_format (seed_text : list Z) :
  length (generate seed_text) = 32%nat /\
  Forall is_hex_char (generate seed_text).
Proof.
  unfold generate.
  pose proof (foldl_range salt_step seed_text salt_step_range (0, 0, 1)) as Hrange.
  destruct (foldl salt_step (0, 0, 1) seed_text) as [[i s1] s2].
  destruct Hrange as [H1 H2]; [lia|].
  destruct (format_08x_32_bits s1) as [Hl1 Hx1]; [lia|].
  destruct (format_08x_32_bits s2) as [Hl2 Hx2]; [lia|].
  destruct (format_08x_32_bits (Z.lxor s1 s2)) as [Hl3 Hx3].
  { pose proof (lxor_below_pow2 s1 s2 30 ltac:(lia) H1 H2). lia. }
  destruct (format_08x_32_bits ((s1 + s2) mod 2 ^ 32)) as [Hl4 Hx4].
  { apply Z.mod_pos_bound. lia. }
  split; [rewrite !length_app; lia|by repeat (apply Forall_app; split)].
Qed.

End NEAFacts.

Example format_08x_examples :
  NEA.format_08x 255 = String.list_ascii_of_string "000000ff" /\
  NEA.format_08x 1000000006 = String.list_ascii_of_string "3b9aca06" /\
  NEA.format_08x 4294967295 = String.list_ascii_of_string "ffffffff" /\
  NEA.format_08x 4294967296 = String.list_ascii_of_string "100000000" /\
  NEA.format_08x (-255) = String.list_ascii_of_string "-00000ff".
Proof. by split_and!. Qed.

Example generate_empty_seed :
  NEA.generate [] = String.list_ascii_of_string "00000000000000010000000100000001".
Proof. reflexivity. Qed.
